(** * MEXC book-ticker / trade streamer: decoder and buffer protocol

    A shallow embedding of the Python sources
    - [PublicAggreBookTickerV3Api_pb2.py]  (hand-written protobuf decoder),
    - [mexc_multi_streamer.py]             (trade ingest, buffers, CSV flush),
    - [mexc_bookticker_streamer.py]        (book-ticker ingest, buffers, flush),
    and the properties of the specification checked against them.

    Conventions.  Python integers are [Z].  A [bytes] object is a [list Z]
    whose elements are the byte values (0..255); no theorem below needs the
    range, so they are stated for every list of integers.  A Python [str] is
    the list of its code points in the decoder, and a Rocq [string] in the
    streamers, where strings are only compared and used as dictionary keys.
    Python floats are IEEE binary64 numbers, here the primitive [float]. *)

From Stdlib Require Import ZArith List Lia Bool Ascii String.
From Stdlib Require Import Floats.PrimFloat.
From Equations Require Import Equations.
From stdpp Require Import base option list gmap strings.

Open Scope Z_scope.

#[global] Set Warnings "-inexact-float".

(** ** UTF-8, as [bytes.decode('utf-8')] and [str.encode('utf-8')] do it *)
Module Utf8.

Definition continuation (b : Z) : bool := (0x80 <=? b) && (b <=? 0xBF).

(** Code points a Python [str] can be encoded from: the Unicode scalar
    values (no surrogates). *)
Definition scalar (cp : Z) : bool :=
  (0 <=? cp) && (cp <=? 0x10FFFF) && negb ((0xD800 <=? cp) && (cp <=? 0xDFFF)).

(** Strict decoding: [None] stands for [UnicodeDecodeError].  Overlong
    forms, surrogates, values above U+10FFFF, stray continuation bytes and
    cut sequences are all refused. *)
Fixpoint decode (bs : list Z) : option (list Z) :=
  match bs with
  | [] => Some []
  | b0 :: r0 =>
    if (0 <=? b0) && (b0 <? 0x80) then cons b0 <$> decode r0
    else if (0xC2 <=? b0) && (b0 <=? 0xDF) then
      match r0 with
      | b1 :: r1 =>
        if continuation b1
        then cons ((b0 - 0xC0) * 64 + (b1 - 0x80)) <$> decode r1
        else None
      | _ => None
      end
    else if (0xE0 <=? b0) && (b0 <=? 0xEF) then
      match r0 with
      | b1 :: b2 :: r2 =>
        let cp := (b0 - 0xE0) * 4096 + (b1 - 0x80) * 64 + (b2 - 0x80) in
        if continuation b1 && continuation b2 && (0x800 <=? cp)
           && negb ((0xD800 <=? cp) && (cp <=? 0xDFFF))
        then cons cp <$> decode r2
        else None
      | _ => None
      end
    else if (0xF0 <=? b0) && (b0 <=? 0xF4) then
      match r0 with
      | b1 :: b2 :: b3 :: r3 =>
        let cp := (b0 - 0xF0) * 262144 + (b1 - 0x80) * 4096
                  + (b2 - 0x80) * 64 + (b3 - 0x80) in
        if continuation b1 && continuation b2 && continuation b3
           && (0x10000 <=? cp) && (cp <=? 0x10FFFF)
        then cons cp <$> decode r3
        else None
      | _ => None
      end
    else None
  end.

Definition encode_char (cp : Z) : list Z :=
  if cp <? 0x80 then [cp]
  else if cp <? 0x800 then [0xC0 + cp / 64; 0x80 + cp mod 64]
  else if cp <? 0x10000 then
    [0xE0 + cp / 4096; 0x80 + (cp / 64) mod 64; 0x80 + cp mod 64]
  else
    [0xF0 + cp / 262144; 0x80 + (cp / 4096) mod 64;
     0x80 + (cp / 64) mod 64; 0x80 + cp mod 64].

Definition encode (s : list Z) : list Z := concat (map encode_char s).

End Utf8.

(** ** [PublicAggreBookTickerV3Api_pb2.py] *)
Module Pb2.

(** [len(data)] *)
Definition len (data : list Z) : Z := Z.of_nat (length data).

(** [data[a:b]] for non-negative [a] and [b]. *)
Definition slice (data : list Z) (a b : Z) : list Z :=
  take (Z.to_nat b - Z.to_nat a)%nat (drop (Z.to_nat a) data).

(** The instance attributes set by [__init__]; [[]] is the empty [str]. *)
Record PublicAggreBookTickerV3Api := mkTicker {
  bidPrice : list Z;
  bidQuantity : list Z;
  askPrice : list Z;
  askQuantity : list Z
}.

Definition __init__ : PublicAggreBookTickerV3Api := mkTicker [] [] [] [].

(** The [while pos < len(data)] loop of [_read_varint], entered at [pos]
    with [rest = data[pos:]]: the loop test is the match on [rest]. *)
Fixpoint read_varint_loop (rest : list Z) (pos result shift : Z) : Z * Z :=
  match rest with
  | [] => (result, pos)
  | byte :: rest' =>
    let pos := pos + 1 in
    let result := Z.lor result (Z.shiftl (Z.land byte 0x7F) shift) in
    if Z.land byte 0x80 =? 0 then (result, pos)
    else read_varint_loop rest' pos result (shift + 7)
  end.

Definition _read_varint (data : list Z) (pos : Z) : Z * Z :=
  read_varint_loop (drop (Z.to_nat pos) data) pos 0 0.

Definition _read_field_header (data : list Z) (pos : Z) : Z * Z * Z :=
  let '(field_num, pos) := _read_varint data pos in
  let wire_type := Z.land field_num 0x7 in
  let field_num := Z.shiftr field_num 3 in
  (field_num, wire_type, pos).

Definition _read_string (data : list Z) (pos : Z) : list Z * Z :=
  let '(length, pos) := _read_varint data pos in
  if pos + length >? len data then ([], pos)
  else
    let string_data := slice data pos (pos + length) in
    let pos := pos + length in
    match Utf8.decode string_data with
    | Some s => (s, pos)
    | None => ([], pos)
    end.

Definition _skip_field (data : list Z) (pos wire_type : Z) : Z :=
  if wire_type =? 0 then snd (_read_varint data pos)
  else if wire_type =? 2 then
    let '(length, pos) := _read_varint data pos in pos + length
  else if wire_type =? 1 then pos + 8
  else if wire_type =? 5 then pos + 4
  else pos.

(** One iteration of the loop of [ParseFromString]. *)
Definition parse_field (data : list Z) (self : PublicAggreBookTickerV3Api)
    (pos : Z) : PublicAggreBookTickerV3Api * Z :=
  let '(field_num, wire_type, pos) := _read_field_header data pos in
  if field_num =? 1 then
    let '(s, pos) := _read_string data pos in
    (mkTicker s (bidQuantity self) (askPrice self) (askQuantity self), pos)
  else if field_num =? 2 then
    let '(s, pos) := _read_string data pos in
    (mkTicker (bidPrice self) s (askPrice self) (askQuantity self), pos)
  else if field_num =? 3 then
    let '(s, pos) := _read_string data pos in
    (mkTicker (bidPrice self) (bidQuantity self) s (askQuantity self), pos)
  else if field_num =? 4 then
    let '(s, pos) := _read_string data pos in
    (mkTicker (bidPrice self) (bidQuantity self) (askPrice self) s, pos)
  else (self, _skip_field data pos wire_type).

(** The loop [while pos < len(data)], run for at most [fuel] iterations;
    [None] means the fuel ran out before the loop test failed. *)
Fixpoint parse_loop (fuel : nat) (data : list Z)
    (self : PublicAggreBookTickerV3Api) (pos : Z)
    : option PublicAggreBookTickerV3Api :=
  if pos <? len data then
    match fuel with
    | O => None
    | S fuel' =>
      let '(self, pos) := parse_field data self pos in
      parse_loop fuel' data self pos
    end
  else Some self.

(** [ParseFromString]: the returned boolean and the object after the call.
    No statement of the [try] block raises on a [bytes] argument: [data[pos]]
    is read under [pos < len(data)], slices never raise, the integers are
    unbounded, and [decode] has its own [except]; so the [except] branch
    ([return False]) has no path leading to it and the boolean is [True].
    The loop is given [len(data)] iterations. *)
Definition ParseFromString (self : PublicAggreBookTickerV3Api)
    (data : list Z) : option (bool * PublicAggreBookTickerV3Api) :=
  self' ← parse_loop (length data) data self 0;
  Some (true, self').

End Pb2.

(** ** A reference protobuf encoder for the book-ticker schema

    Not part of the repository: the wire format the decoder is meant to
    read, used to state the decoding round trip. *)
Module Wire.

(** Base-128 varint, least significant group first, continuation bit set
    on every byte but the last. *)
Equations? encode_varint (n : Z) : list Z by wf (Z.to_nat n) lt :=
  encode_varint n with Z_lt_dec n 0x80 => {
    | left _ := [n];
    | right _ := (n mod 128 + 128) :: encode_varint (n / 128) }.
Proof.
  assert (0 <= n / 128 < n)
    by (split; [apply Z.div_pos | apply Z.div_lt]; lia).
  lia.
Qed.

(** The key of a field: [(field_number << 3) | wire_type]. *)
Definition key (num wire_type : Z) : Z := Z.lor (Z.shiftl num 3) wire_type.

Inductive field :=
| StringField (num : Z) (s : list Z)      (* fields 1-4: wire type 2, a str *)
| VarintField (num : Z) (v : Z)           (* wire type 0 *)
| Fixed64Field (num : Z) (raw : list Z)   (* wire type 1, 8 raw bytes *)
| BytesField (num : Z) (raw : list Z)     (* wire type 2, opaque payload *)
| Fixed32Field (num : Z) (raw : list Z).  (* wire type 5, 4 raw bytes *)

Definition length_delimited (num : Z) (payload : list Z) : list Z :=
  encode_varint (key num 2) ++ encode_varint (Pb2.len payload) ++ payload.

Definition encode_field (f : field) : list Z :=
  match f with
  | StringField num s => length_delimited num (Utf8.encode s)
  | VarintField num v => encode_varint (key num 0) ++ encode_varint v
  | Fixed64Field num raw => encode_varint (key num 1) ++ raw
  | BytesField num raw => length_delimited num raw
  | Fixed32Field num raw => encode_varint (key num 5) ++ raw
  end.

Definition encode_frame (fs : list field) : list Z :=
  concat (map encode_field fs).

Definition number (f : field) : Z :=
  match f with
  | StringField num _ | VarintField num _ | Fixed64Field num _
  | BytesField num _ | Fixed32Field num _ => num
  end.

(** The field numbers of the schema. *)
Definition known (num : Z) : bool := (1 <=? num) && (num <=? 4).

(** Frames of the schema: fields 1 to 4 are strings of scalar values, any
    other field has a number above 4 and a payload of its wire type's
    size. *)
Definition valid_field (f : field) : bool :=
  match f with
  | StringField num s => known num && forallb Utf8.scalar s
  | VarintField num v => (4 <? num) && (0 <=? v)
  | Fixed64Field num raw => (4 <? num) && (length raw =? 8)%nat
  | BytesField num raw => (4 <? num)
  | Fixed32Field num raw => (4 <? num) && (length raw =? 4)%nat
  end.

(** What a field of the frame means for the decoded object. *)
Definition assign (self : Pb2.PublicAggreBookTickerV3Api) (f : field)
    : Pb2.PublicAggreBookTickerV3Api :=
  match f with
  | StringField num s =>
    if num =? 1 then
      Pb2.mkTicker s (Pb2.bidQuantity self) (Pb2.askPrice self) (Pb2.askQuantity self)
    else if num =? 2 then
      Pb2.mkTicker (Pb2.bidPrice self) s (Pb2.askPrice self) (Pb2.askQuantity self)
    else if num =? 3 then
      Pb2.mkTicker (Pb2.bidPrice self) (Pb2.bidQuantity self) s (Pb2.askQuantity self)
    else if num =? 4 then
      Pb2.mkTicker (Pb2.bidPrice self) (Pb2.bidQuantity self) (Pb2.askPrice self) s
    else self
  | _ => self
  end.

End Wire.

(** ** What the two streamers share

    [mexc_multi_streamer.py] and [mexc_bookticker_streamer.py] keep the same
    per-symbol state ([trade_data_buffers] / [ticker_data_buffers],
    [total_trades] / [total_updates], [buffer_locks], [csv_files]) and the
    same [save_data_to_csv]; only the row type differs.  The shared part is
    written once, over the row type.

    Every access to a symbol's buffer and counter happens inside
    [with self.buffer_locks[symbol]:], so the body of such a block is an
    atomic step of that symbol's state; the threads interleave between
    those steps.  *)
Module Store.

(** A cell and a row of a CSV file. *)
Inductive cell :=
| Int (z : Z)
| Str (s : string)
| Float (f : float).

Definition csv_row := list cell.

Section Store.
Context {row : Type}.

(** The attributes of the streamer object that the buffers and the save
    use.  [csv_files] holds, for the file opened for a symbol, the
    batches of rows that the calls of [writer.writerows] have left in it
    since the header was written - the whole batch of a call that
    succeeded, the first rows of the batch of a call that raised -: the
    file's rows are their concatenation. *)
Record streamer := mkStreamer {
  symbols : list string;
  data_buffers : gmap string (list row);
  total : gmap string Z;
  last_save_time : Z;
  save_interval : Z;
  csv_files : gmap string (list (list csv_row))
}.

Definition set_buffers (st : streamer) (b : gmap string (list row)) :=
  mkStreamer (symbols st) b (total st) (last_save_time st)
             (save_interval st) (csv_files st).
Definition set_total (st : streamer) (t : gmap string Z) :=
  mkStreamer (symbols st) (data_buffers st) t (last_save_time st)
             (save_interval st) (csv_files st).
Definition set_last_save_time (st : streamer) (now : Z) :=
  mkStreamer (symbols st) (data_buffers st) (total st) now
             (save_interval st) (csv_files st).
Definition set_csv_files (st : streamer)
    (f : gmap string (list (list csv_row))) :=
  mkStreamer (symbols st) (data_buffers st) (total st)
             (last_save_time st) (save_interval st) f.

(** [{symbol: v for symbol in self.symbols}] *)
Definition dict_of_symbols {V} (syms : list string) (v : V)
    : gmap string V :=
  list_to_map (map (fun s => (s, v)) syms).

(** The state [__init__] leaves, given the upper-cased symbols, the
    clock reading [now] and the interval from the configuration. *)
Definition init (syms : list string) (now interval : Z) : streamer :=
  mkStreamer syms (dict_of_symbols syms []) (dict_of_symbols syms 0)
             now interval (dict_of_symbols syms []).

(** [self.*_data_buffers[symbol].append(data_row)] followed by
    [self.total_*[symbol] += 1].  A missing key raises [KeyError], which
    the caller's [except Exception] swallows: the statements before it
    keep their effect. *)
Definition append_row (symbol : string) (data_row : row)
    (st : streamer) : streamer :=
  match data_buffers st !! symbol with
  | None => st
  | Some buf =>
    let st := set_buffers st (<[symbol := buf ++ [data_row]]> (data_buffers st)) in
    match total st !! symbol with
    | None => st
    | Some n => set_total st (<[symbol := n + 1]> (total st))
    end
  end.

Variable to_csv_row : row -> csv_row.

(** How the sink call of a flush - [open], [writerows] and the close at
    the end of the inner [with] block - ends.  It succeeds, or an
    exception leaves the block: the file is opened for appending and
    written through a buffer, so by then the first [written] rows of the
    batch may have reached the file, from none ([Raises 0], as when [open]
    itself raises) to all of them (when the close raises after the last
    write).  The file is kept as whole rows: a last line cut in the
    middle is not represented. *)
Inductive sink_result :=
| Succeeds
| Raises (written : nat).

(** The body of [with self.buffer_locks[symbol]:] in [save_data_to_csv],
    for one symbol, whose sink call ends as [sink] says.  When the call
    raises, the exception leaves the block before [clear()]: the buffer
    is kept, whatever has reached the file.  The result is the state and
    the number to add to [total_saved], or [inl] of the state when an
    exception leaves the block. *)
Definition flush_symbol (symbol : string) (sink : sink_result)
    (st : streamer) : streamer + streamer * Z :=
  match data_buffers st !! symbol with
  | None => inl st
  | Some [] => inr (st, 0)
  | Some buf =>
    let csv_rows := map to_csv_row buf in
    match csv_files st !! symbol with
    | None => inl st
    | Some batches =>
      match sink with
      | Succeeds =>
        let st := set_csv_files st (<[symbol := batches ++ [csv_rows]]> (csv_files st)) in
        let saved := Z.of_nat (length buf) in
        inr (set_buffers st (<[symbol := []]> (data_buffers st)), saved)
      | Raises written =>
        match take written csv_rows with
        | [] => inl st
        | part =>
          inl (set_csv_files st (<[symbol := batches ++ [part]]> (csv_files st)))
        end
      end
    end
  end.

(** The state an outcome of [flush_symbol] or [save_loop] leaves. *)
Definition state_of (r : streamer + streamer * Z) : streamer :=
  match r with
  | inl st => st
  | inr (st, _) => st
  end.

(** [for symbol in self.symbols:] of [save_data_to_csv]. *)
Fixpoint save_loop (syms : list string) (sink : string -> sink_result)
    (st : streamer) (total_saved : Z) : streamer + streamer * Z :=
  match syms with
  | [] => inr (st, total_saved)
  | symbol :: syms' =>
    match flush_symbol symbol (sink symbol) st with
    | inl st => inl st
    | inr (st, saved) => save_loop syms' sink st (total_saved + saved)
    end
  end.

(** [save_data_to_csv]: [last_save_time] is set only when the loop ends
    without an exception; the [except] branch only prints. *)
Definition save_data_to_csv (now : Z) (sink : string -> sink_result)
    (st : streamer) : streamer :=
  match save_loop (symbols st) sink st 0 with
  | inl st => st
  | inr (st, _) => set_last_save_time st now
  end.

(** [should_save_data] at clock reading [now]. *)
Definition should_save_data (now : Z) (st : streamer) : bool :=
  now - last_save_time st >=? save_interval st.

(** [sum(len(self.*_data_buffers[symbol]) for symbol in self.symbols)];
    the dictionary is keyed by [self.symbols], so the default is not met. *)
Definition total_buffered (st : streamer) : Z :=
  foldr Z.add 0
    (map (fun s => Z.of_nat (length (default [] (data_buffers st !! s))))
         (symbols st)).

(** One wake-up of [_auto_save_thread] (after [time.sleep(60)]): [now] is
    the clock reading of [should_save_data], [now_saved] the later one of
    [save_data_to_csv]. *)
Definition auto_save_tick (now now_saved : Z)
    (sink : string -> sink_result) (st : streamer) : streamer :=
  if should_save_data now st then
    if total_buffered st >? 0 then save_data_to_csv now_saved sink st
    else st
  else st.

(** The atomic steps on the shared state: a block of appends made by
    the ingest thread under one symbol's lock, the flush of one symbol
    under its lock, the assignment to [last_save_time] that ends a
    save, and a statistics read.  [_on_message] and [save_data_to_csv]
    are sequences of such steps, and the threads interleave between
    them; a flush that raises ends its save, which the sequences of
    steps allow without requiring it. *)
Inductive step :=
| Append (symbol : string) (rows : list row)
| Flush (symbol : string) (sink : sink_result)
| Saved (now : Z)
| ReadStatistics.

Definition append_rows (symbol : string) (rows : list row)
    (st : streamer) : streamer :=
  foldl (fun st r => append_row symbol r st) st rows.

Definition run_step (st : streamer) (s : step) : streamer :=
  match s with
  | Append symbol rows => append_rows symbol rows st
  | Flush symbol sink => state_of (flush_symbol symbol sink st)
  | Saved now => set_last_save_time st now
  | ReadStatistics => st
  end.

Definition run (st : streamer) (steps : list step) : streamer :=
  foldl run_step st steps.

(** The rows a step appends to [symbol]'s buffer, and the rows a
    sequence of steps appends to it, in order. *)
Definition step_rows (symbol : string) (x : step) : list row :=
  match x with
  | Append symbol' rows => if decide (symbol' = symbol) then rows else []
  | _ => []
  end.

Definition appended (symbol : string) (steps : list step) : list row :=
  concat (map (step_rows symbol) steps).

(** The rows of [symbol]'s file, and its live buffer. *)
Definition persisted (symbol : string) (st : streamer) : list csv_row :=
  concat (default [] (csv_files st !! symbol)).
Definition buffered (symbol : string) (st : streamer) : list row :=
  default [] (data_buffers st !! symbol).
Definition counter (symbol : string) (st : streamer) : Z :=
  default 0 (total st !! symbol).

(** The three dictionaries have an entry for [symbol]. *)
Definition has_keys (symbol : string) (st : streamer) : Prop :=
  is_Some (data_buffers st !! symbol) /\ is_Some (total st !! symbol)
  /\ is_Some (csv_files st !! symbol).

(** The rows a step drains from [symbol]'s buffer: the batch of a flush
    that reaches [clear()], which is all the buffer held.  And the rows
    a sequence of steps drains from it, batch after batch, starting in
    state [st]. *)
Definition step_drained (symbol : string) (st : streamer) (x : step)
    : list row :=
  match x with
  | Flush symbol' sink =>
    if decide (symbol' = symbol) then
      match flush_symbol symbol' sink st with
      | inr _ => buffered symbol st
      | inl _ => []
      end
    else []
  | _ => []
  end.

Fixpoint drained (symbol : string) (st : streamer) (steps : list step)
    : list row :=
  match steps with
  | [] => []
  | x :: steps' =>
    step_drained symbol st x ++ drained symbol (run_step st x) steps'
  end.

(** A step that is not a flush whose sink call raises after rows of the
    batch have reached the file. *)
Definition writes_nothing_on_failure (x : step) : Prop :=
  match x with
  | Flush _ (Raises (S _)) => False
  | _ => True
  end.

End Store.
Arguments streamer : clear implicits.
Arguments step : clear implicits.
End Store.

(** ** What the streamers import *)
Module Env.

(** [s.upper()] on the ASCII letters, which is all a trading-pair symbol
    is made of; the other characters are kept.  On characters outside
    ASCII [str.upper] follows Unicode's case mapping, which this
    function does not: [Startup] keeps it abstract. *)
Definition upper_ascii (c : ascii) : ascii :=
  let n := nat_of_ascii c in
  if ((97 <=? n) && (n <=? 122))%nat then ascii_of_nat (n - 32) else c.

Fixpoint upper (s : string) : string :=
  match s with
  | EmptyString => EmptyString
  | String c s' => String (upper_ascii c) (upper s')
  end.

(** Modelled from the spec: the classes of [PushDataV3ApiWrapper_pb2],
    which the streamers import and which is not among the sources.  The
    spec's [Deal] is [{price, quantity: decimal-string, tradeType, time}],
    its [BookTicker] four decimal strings, its [Envelope] [{channel,
    symbol, sendTime, payload}]; the attribute names are those the
    streamers read. *)
Record Deal := mkDeal {
  price : string;
  quantity : string;
  tradeType : Z;
  time : Z
}.

(** Modelled from the spec: the book-ticker payload of the wrapper, the
    spec's [BookTicker] of four decimal strings. *)
Record BookTicker := mkBookTicker {
  bidPrice : string;
  bidQuantity : string;
  askPrice : string;
  askQuantity : string
}.

(** Modelled from the spec: the wrapper, the spec's [Envelope], with the
    attributes the streamers read; an absent payload is [None]. *)
Record PushDataV3ApiWrapper := mkWrapper {
  channel : string;
  symbol : string;
  sendTime : Z;
  publicAggreDeals : option (list Deal);
  publicAggreBookTicker : option BookTicker
}.

(** What the streamers take from outside the repository. *)
Class Externals := {
  (** [wrapper.ParseFromString(data)] on a fresh wrapper; [None] when it
      raises. *)
  wrapper_of_bytes : list Z -> option PushDataV3ApiWrapper;
  (** [float(s)]; [None] for [ValueError]. *)
  float_of_str : string -> option float;
  (** [datetime.fromtimestamp(ms / 1000).strftime('%Y-%m-%d
      %H:%M:%S.%f')[:-3]]; [None] when [fromtimestamp] raises (a time
      outside the platform's range). *)
  strftime_ms : Z -> option string;
}.

End Env.

Local Open Scope string_scope.
Local Open Scope list_scope.
Local Open Scope Z_scope.

(** ** [mexc_multi_streamer.py] *)
Module Multi.
Import Env Store.

(** The dictionary [trade] built by [_parse_protobuf_message]. *)
Record trade := mkTrade {
  t_price : float;
  t_quantity : float;
  t_trade_type : Z;
  t_symbol : string;
  t_channel : string;
  t_timestamp : Z
}.

(** The dictionary [data_row] built by [_process_trade]. *)
Record data_row := mkRow {
  r_timestamp : Z;
  r_datetime : string;
  r_symbol : string;
  r_price : float;
  r_quantity : float;
  r_trade_type : Z;
  r_trade_type_str : string;
  r_channel : string;
  r_event_type : string
}.

Definition MEXCMultiStreamer := streamer data_row.

(** The basic validation of a deal: [price > 0 and quantity > 0 and
    price != quantity and abs(price - quantity) > 0.001]. *)
Definition basic_validation (price quantity : float) : bool :=
  PrimFloat.ltb 0 price && PrimFloat.ltb 0 quantity
  && negb (PrimFloat.eqb price quantity)
  && PrimFloat.ltb 0.001 (PrimFloat.abs (PrimFloat.sub price quantity)).

(** ['BUY' if trade.get('trade_type') == 1 else 'SELL'] *)
Definition trade_type_str (trade_type : Z) : string :=
  if trade_type =? 1 then "BUY" else "SELL".

(** The row of the CSV file made from a buffered row by [save_data_to_csv]. *)
Definition to_csv_row (r : data_row) : csv_row :=
  [Int (r_timestamp r); Str (r_datetime r); Str (r_symbol r);
   Float (r_price r); Float (r_quantity r); Int (r_trade_type r);
   Str (r_trade_type_str r); Str (r_channel r); Str (r_event_type r)].

Section Streamer.
Context `{Externals}.

(** [__init__]: the symbols are upper-cased, every dictionary is keyed
    by them. *)
Definition __init__ (syms : list string) (now interval : Z)
    : MEXCMultiStreamer :=
  init (map upper syms) now interval.

(** The body of [for deal in wrapper.publicAggreDeals.deals:]; [now] is
    [int(time.time() * 1000)] read at that moment.  [None]: no trade is
    appended (validation fails, or [float] raises and the loop
    continues). *)
Definition parse_deal (now : Z) (wrapper : PushDataV3ApiWrapper)
    (message_symbol : string) (deal : Deal) : option trade :=
  match float_of_str (Env.price deal), float_of_str (Env.quantity deal) with
  | Some price, Some quantity =>
    if basic_validation price quantity then
      Some (mkTrade price quantity (tradeType deal) message_symbol
                    (channel wrapper)
                    (if Env.time deal >? 0 then Env.time deal else now))
    else None
  | _, _ => None
  end.

(** [_parse_protobuf_message(data, None)]; [clock i] is the clock
    reading taken while deal number [i] is handled. *)
Definition _parse_protobuf_message (clock : nat -> Z) (data : list Z)
    : list trade :=
  match wrapper_of_bytes data with
  | None => []
  | Some wrapper =>
    let message_symbol := symbol wrapper in
    if decide (message_symbol = "") then []
    else
      match publicAggreDeals wrapper with
      | Some deals =>
        omap id (imap (fun i deal =>
                         parse_deal (clock i) wrapper message_symbol deal)
                      deals)
      | None => []
      end
  end.

(** [_process_trade(trade, symbol)]: when the time stamp has no
    [datetime], the exception is caught and nothing is appended. *)
Definition make_row (trade : trade) : option data_row :=
  match strftime_ms (t_timestamp trade) with
  | None => None
  | Some dt =>
    Some (mkRow (t_timestamp trade) dt (t_symbol trade) (t_price trade)
                (t_quantity trade) (t_trade_type trade)
                (trade_type_str (t_trade_type trade)) (t_channel trade)
                "spot@public.aggre.deals.v3.api.pb@100ms")
  end.

Definition _process_trade (trade : trade) (symbol : string)
    (st : MEXCMultiStreamer) : MEXCMultiStreamer :=
  match make_row trade with
  | None => st
  | Some data_row => append_row symbol data_row st
  end.

(** [trades_by_symbol]: a dictionary in insertion order. *)
Fixpoint dict_append (d : list (string * list trade)) (symbol : string)
    (t : trade) : list (string * list trade) :=
  match d with
  | [] => [(symbol, [t])]
  | (k, v) :: d' =>
    if decide (k = symbol) then (k, v ++ [t]) :: d'
    else (k, v) :: dict_append d' symbol t
  end.

Definition group_by_symbol (syms : list string) (trades : list trade)
    : list (string * list trade) :=
  foldl (fun d t =>
           let symbol := t_symbol t in
           if negb (bool_decide (symbol = ""))
              && bool_decide (symbol ∈ syms)
           then dict_append d symbol t else d) [] trades.

(** The body of [with self.buffer_locks[symbol]:] in [_on_message]. *)
Definition process_trades (symbol : string) (symbol_trades : list trade)
    (st : MEXCMultiStreamer) : MEXCMultiStreamer :=
  foldl (fun st t => _process_trade t symbol st) st symbol_trades.

(** [_on_message] on a binary frame (a [bytes] message: the JSON branch
    is for [str] messages of the control channel). *)
Definition _on_message (clock : nat -> Z) (message : list Z)
    (st : MEXCMultiStreamer) : MEXCMultiStreamer :=
  let trades := _parse_protobuf_message clock message in
  foldl (fun st '(symbol, symbol_trades) =>
           process_trades symbol symbol_trades st)
        st (group_by_symbol (symbols st) trades).

Definition save_data_to_csv := @Store.save_data_to_csv data_row to_csv_row.

(** The steps [_on_message] makes: one block of appends for each key of
    [trades_by_symbol], in the order of the dictionary. *)
Definition message_steps (clock : nat -> Z) (message : list Z)
    (st : MEXCMultiStreamer) : list (step data_row) :=
  map (fun '(symbol, symbol_trades) =>
         Append symbol (omap make_row symbol_trades))
      (group_by_symbol (symbols st) (_parse_protobuf_message clock message)).

End Streamer.
End Multi.

(** ** [mexc_bookticker_streamer.py] *)
Module Ticker.
Import Env Store.

(** The dictionary returned by [_parse_protobuf_message]. *)
Record ticker_data := mkTickerData {
  t_symbol : string;
  t_bid_price : float;
  t_bid_quantity : float;
  t_ask_price : float;
  t_ask_quantity : float;
  t_spread : float;
  t_spread_percent : float;
  t_channel : string;
  t_timestamp : Z
}.

(** The dictionary [data_row] built by [_process_ticker_data]. *)
Record data_row := mkRow {
  r_timestamp : Z;
  r_datetime : string;
  r_symbol : string;
  r_bid_price : float;
  r_bid_quantity : float;
  r_ask_price : float;
  r_ask_quantity : float;
  r_spread : float;
  r_spread_percent : float;
  r_channel : string;
  r_event_type : string
}.

Definition MEXCBookTickerStreamer := streamer data_row.

(** [ask_price - bid_price if ask_price > 0 and bid_price > 0 else 0.0] *)
Definition spread_of (bid_price ask_price : float) : float :=
  if PrimFloat.ltb 0 ask_price && PrimFloat.ltb 0 bid_price
  then PrimFloat.sub ask_price bid_price else 0%float.

(** [(spread / bid_price * 100) if bid_price > 0 else 0.0] *)
Definition spread_percent_of (spread bid_price : float) : float :=
  if PrimFloat.ltb 0 bid_price
  then PrimFloat.mul (PrimFloat.div spread bid_price) 100 else 0%float.

(** [bid_price > 0 and ask_price > 0 and bid_quantity > 0 and
    ask_quantity > 0] *)
Definition validate (bid_price bid_quantity ask_price ask_quantity : float)
    : bool :=
  PrimFloat.ltb 0 bid_price && PrimFloat.ltb 0 ask_price
  && PrimFloat.ltb 0 bid_quantity && PrimFloat.ltb 0 ask_quantity.

(** The part of [_parse_protobuf_message] after the four fields are
    parsed: the two derived values, then the validation. *)
Definition ticker_of (wrapper : PushDataV3ApiWrapper)
    (bid_price bid_quantity ask_price ask_quantity : float)
    : option ticker_data :=
  let spread := spread_of bid_price ask_price in
  let spread_percent := spread_percent_of spread bid_price in
  if validate bid_price bid_quantity ask_price ask_quantity then
    Some (mkTickerData (symbol wrapper) bid_price bid_quantity ask_price
                       ask_quantity spread spread_percent (channel wrapper)
                       (sendTime wrapper))
  else None.

Definition to_csv_row (r : data_row) : csv_row :=
  [Int (r_timestamp r); Str (r_datetime r); Str (r_symbol r);
   Float (r_bid_price r); Float (r_bid_quantity r); Float (r_ask_price r);
   Float (r_ask_quantity r); Float (r_spread r); Float (r_spread_percent r);
   Str (r_channel r); Str (r_event_type r)].

Section Streamer.
Context `{Externals}.

Definition __init__ (syms : list string) (now interval : Z)
    : MEXCBookTickerStreamer :=
  init (map upper syms) now interval.

(** [float(x) if x else 0.0]; [None] when [float] raises. *)
Definition float_or_zero (x : string) : option float :=
  if decide (x = "") then Some 0%float else float_of_str x.

(** [_parse_protobuf_message(data, None)]: [None] is the value [None],
    returned when there is no book ticker, when validation fails, and
    from the [except] branch. *)
Definition _parse_protobuf_message (data : list Z) : option ticker_data :=
  match wrapper_of_bytes data with
  | None => None
  | Some wrapper =>
    match publicAggreBookTicker wrapper with
    | None => None
    | Some book_ticker =>
      match float_or_zero (bidPrice book_ticker),
            float_or_zero (bidQuantity book_ticker),
            float_or_zero (askPrice book_ticker),
            float_or_zero (askQuantity book_ticker) with
      | Some bid_price, Some bid_quantity, Some ask_price, Some ask_quantity =>
        ticker_of wrapper bid_price bid_quantity ask_price ask_quantity
      | _, _, _, _ => None
      end
    end
  end.

(** [_process_ticker_data]; [now_str] is [datetime.now()] formatted,
    used when the time stamp is not positive. *)
Definition make_row (now_str : string) (t : ticker_data) (symbol : string)
    : option data_row :=
  let ticker_timestamp := t_timestamp t in
  match (if ticker_timestamp >? 0 then strftime_ms ticker_timestamp
         else Some now_str) with
  | None => None
  | Some dt =>
    Some (mkRow ticker_timestamp dt symbol (t_bid_price t)
                (t_bid_quantity t) (t_ask_price t) (t_ask_quantity t)
                (t_spread t) (t_spread_percent t) (t_channel t)
                "spot@public.aggre.bookTicker.v3.api.pb@100ms")
  end.

Definition _process_ticker_data (now_str : string) (t : ticker_data)
    (symbol : string) (st : MEXCBookTickerStreamer)
    : MEXCBookTickerStreamer :=
  match make_row now_str t symbol with
  | None => st
  | Some data_row => append_row symbol data_row st
  end.

(** [_on_message] on a binary frame. *)
Definition _on_message (now_str : string) (message : list Z)
    (st : MEXCBookTickerStreamer) : MEXCBookTickerStreamer :=
  match _parse_protobuf_message message with
  | None => st
  | Some ticker_data =>
    let symbol := t_symbol ticker_data in
    if negb (bool_decide (symbol = "")) && bool_decide (symbol ∈ symbols st)
    then _process_ticker_data now_str ticker_data symbol st
    else st
  end.

Definition save_data_to_csv := @Store.save_data_to_csv data_row to_csv_row.

End Streamer.
End Ticker.

(** ** Sample inputs

    A wrapper decoder, a [float] and a calendar to run the streamers on:
    frames starting with byte 1, 2 and 3 decode to the three wrappers
    below. *)
Module Demo.
Import Env.

Definition example_frame : list Wire.field :=
  [Wire.StringField 1 [49; 48; 48]; Wire.VarintField 9 300;
   Wire.StringField 3 [49; 48; 49; 0x20AC]; Wire.Fixed32Field 7 [1; 2; 3; 4];
   Wire.Fixed64Field 6 [1; 2; 3; 4; 5; 6; 7; 8];
   Wire.BytesField 200 [255; 255]; Wire.StringField 4 []; Wire.StringField 1 [50]].

Definition deals_wrapper : PushDataV3ApiWrapper :=
  mkWrapper "spot@public.aggre.deals.v3.api.pb@100ms@BTCUSDT" "BTCUSDT"
            1700000000000
            (Some [mkDeal "100.0" "2.0" 1 1700000000001;
                   mkDeal "101.0" "1.0" 2 0;
                   mkDeal "5.0" "5.0" 1 1700000000002;
                   mkDeal "5.0005" "5.0" 1 1700000000003])
            None.

Definition lowercase_wrapper : PushDataV3ApiWrapper :=
  mkWrapper "spot@public.aggre.deals.v3.api.pb@100ms@btcusdt" "btcusdt"
            1700000000000
            (Some [mkDeal "100.0" "2.0" 1 1700000000001])
            (Some (mkBookTicker "100.0" "1.0" "101.0" "1.0")).

Definition ticker_wrapper : PushDataV3ApiWrapper :=
  mkWrapper "spot@public.aggre.bookTicker.v3.api.pb@100ms@ETHUSDT" "ETHUSDT"
            1700000000000 None
            (Some (mkBookTicker "100.0" "1.0" "101.0" "1.0")).

Definition float_table : list (string * float) :=
  [("100.0", 100%float); ("101.0", 101%float); ("2.0", 2%float);
   ("1.0", 1%float); ("5.0", 5%float); ("5.0005", 5.0005%float)].

Definition lookup_float (s : string) : option float :=
  snd <$> List.find (fun p => String.eqb (fst p) s) float_table.

Definition externals : Externals :=
  {| wrapper_of_bytes := fun data =>
       match data with
       | 1 :: _ => Some deals_wrapper
       | 2 :: _ => Some lowercase_wrapper
       | 3 :: _ => Some ticker_wrapper
       | _ => None
       end;
     float_of_str := lookup_float;
     strftime_ms := fun ms =>
       if (0 <=? ms) && (ms <? 253402300800000)
       then Some "2023-11-14 22:13:20.000" else None |}.

Definition clock (i : nat) : Z := 1700000005000 + Z.of_nat i.

Definition row (symbol : string) (timestamp : Z) : Multi.data_row :=
  Multi.mkRow timestamp "2023-11-14 22:13:20.000" symbol 100 2 1 "BUY"
              "spot@public.aggre.deals.v3.api.pb@100ms"
              "spot@public.aggre.deals.v3.api.pb@100ms".

(** Appends to two symbols interleaved with two successful flushes and
    one whose sink call raises after the first row has reached the file. *)
Definition steps : list (Store.step Multi.data_row) :=
  [Store.Append "BTCUSDT" [row "BTCUSDT" 1; row "BTCUSDT" 2];
   Store.Flush "BTCUSDT" (Store.Raises 1);
   Store.Append "ETHUSDT" [row "ETHUSDT" 3];
   Store.ReadStatistics;
   Store.Append "BTCUSDT" [row "BTCUSDT" 4];
   Store.Flush "BTCUSDT" Store.Succeeds;
   Store.Saved 60000;
   Store.Append "BTCUSDT" [row "BTCUSDT" 5];
   Store.Flush "ETHUSDT" Store.Succeeds;
   Store.Append "BTCUSDT" [row "BTCUSDT" 6]].

(** The same, with a sink call that raises before anything is written. *)
Definition clean_steps : list (Store.step Multi.data_row) :=
  [Store.Append "BTCUSDT" [row "BTCUSDT" 1; row "BTCUSDT" 2];
   Store.Flush "BTCUSDT" (Store.Raises 0);
   Store.Append "ETHUSDT" [row "ETHUSDT" 3];
   Store.ReadStatistics;
   Store.Append "BTCUSDT" [row "BTCUSDT" 4];
   Store.Flush "BTCUSDT" Store.Succeeds;
   Store.Saved 60000;
   Store.Append "BTCUSDT" [row "BTCUSDT" 5];
   Store.Flush "ETHUSDT" Store.Succeeds;
   Store.Append "BTCUSDT" [row "BTCUSDT" 6]].

(** A streamer for two symbols with one row buffered for the first. *)
Definition one_buffered : Multi.MEXCMultiStreamer :=
  Store.append_row "BTCUSDT" (row "BTCUSDT" 1)
    (Multi.__init__ ["btcusdt"; "ethusdt"] 0 60000).

(** A streamer for two symbols with three rows buffered for the first. *)
Definition three_buffered : Multi.MEXCMultiStreamer :=
  Store.append_rows "BTCUSDT"
    [row "BTCUSDT" 1; row "BTCUSDT" 2; row "BTCUSDT" 3]
    (Multi.__init__ ["btcusdt"; "ethusdt"] 0 60000).

(** A sink that is down: every call raises before anything is written.
    A sink whose calls raise after one row has reached the file.  A sink
    that works. *)
Definition sink_down (symbol : string) : Store.sink_result := Store.Raises 0.
Definition sink_torn (symbol : string) : Store.sink_result := Store.Raises 1.
Definition sink_up (symbol : string) : Store.sink_result := Store.Succeeds.

End Demo.

(** ** Frames whose known fields carry any bytes

    The frames of [Wire], with one more freedom: a length-delimited field
    may have any number, so a field of the schema may carry bytes that are
    not UTF-8. *)
Module WireAny.
Import Wire.

Definition wellformed (f : field) : bool :=
  match f with
  | BytesField num raw => 0 <=? num
  | _ => valid_field f
  end.

(** What [_read_string] makes of a complete payload: its text, or the
    empty string when [decode] raises. *)
Definition decoded (raw : list Z) : list Z := default [] (Utf8.decode raw).

Definition assign_any (self : Pb2.PublicAggreBookTickerV3Api) (f : field)
    : Pb2.PublicAggreBookTickerV3Api :=
  match f with
  | BytesField num raw => assign self (StringField num (decoded raw))
  | _ => assign self f
  end.

(** The attribute a field number of the schema is stored in. *)
Definition slot (num : Z) (self : Pb2.PublicAggreBookTickerV3Api) : list Z :=
  if num =? 1 then Pb2.bidPrice self
  else if num =? 2 then Pb2.bidQuantity self
  else if num =? 3 then Pb2.askPrice self
  else Pb2.askQuantity self.

(** The text a field gives to the attribute of its number, if it is
    length-delimited. *)
Definition text_of (f : field) : option (list Z) :=
  match f with
  | StringField _ s => Some s
  | BytesField _ raw => Some (decoded raw)
  | _ => None
  end.

End WireAny.

(** ** Shutdown

    [disconnect], the same in both streamers.  The object is the two flags
    the threads poll and the state of the buffers; closing the socket
    ([self.ws.close()]) belongs to the transport and the totals are only
    printed. *)
Module Lifecycle.
Import Store.

Section Lifecycle.
Context {row : Type}.
Variable to_csv_row : row -> csv_row.

Record client := mkClient {
  is_running : bool;
  is_connected : bool;
  streamer_of : streamer row
}.

(** [disconnect]: the flags are cleared, and what is still buffered is
    saved; [now] is the clock reading of that save. *)
Definition disconnect (now : Z) (sink : string -> sink_result) (c : client)
    : client :=
  let st := streamer_of c in
  mkClient false false
    (if total_buffered st >? 0 then save_data_to_csv to_csv_row now sink st
     else st).

(** What a save appends to the batches of a file whose buffer holds
    [buf]: one batch, or nothing when the buffer is empty. *)
Definition with_batch (buf : list row) (batches : list (list csv_row))
    : list (list csv_row) :=
  batches ++ match buf with [] => [] | _ => [map to_csv_row buf] end.

End Lifecycle.
Arguments client : clear implicits.
End Lifecycle.

(** ** Ingest: grouping, the steps of the book-ticker streamer, the files *)
Module Ingest.
Import Env Store.

(** [d.get(k)] on a dictionary kept in insertion order. *)
Fixpoint dict_get {V} (d : list (string * V)) (k : string) : option V :=
  match d with
  | [] => None
  | (k', v) :: d' => if decide (k' = k) then Some v else dict_get d' k
  end.







Section Ingest.
Context `{Externals}.

(** The steps [_on_message] of the book-ticker streamer makes: one append
    of at most one row. *)
Definition ticker_message_steps (now_str : string) (message : list Z)
    (st : Ticker.MEXCBookTickerStreamer) : list (step Ticker.data_row) :=
  match Ticker._parse_protobuf_message message with
  | None => []
  | Some ticker_data =>
    let symbol := Ticker.t_symbol ticker_data in
    if negb (bool_decide (symbol = "")) && bool_decide (symbol ∈ symbols st)
    then [Append symbol
            (option_list (Ticker.make_row now_str ticker_data symbol))]
    else []
  end.

End Ingest.
End Ingest.

(** ** Text frames

    The first part of [_on_message], the same in both streamers: a [str]
    message is tried as JSON, and a subscription response or a PONG ends
    the handler. *)
Module Control.
Import Store.

#[local] Set Warnings "-register-all".

(** A value [json.loads] returns. *)
Inductive json :=
| JNull
| JBool (b : bool)
| JInt (n : Z)
| JFloat (f : float)
| JString (s : string)
| JArray (items : list json)
| JObject (items : list (string * json)).

(** [json.loads(message)]: the value, [json.JSONDecodeError], or another
    exception ([RecursionError] on a deeply nested text). *)
Inductive loads_result :=
| Loaded (data : json)
| JSONDecodeError
| OtherError.

(** [k in s] for two strings. *)
Fixpoint starts_with (k s : string) : bool :=
  match k, s with
  | EmptyString, _ => true
  | String a k', String b s' => Ascii.eqb a b && starts_with k' s'
  | String _ _, EmptyString => false
  end.

Fixpoint substring_of (k s : string) : bool :=
  starts_with k s
  || match s with
     | EmptyString => false
     | String _ s' => substring_of k s'
     end.

(** [d.get(k)] on the items of an object. *)
Fixpoint lookup_key (items : list (string * json)) (k : string)
    : option json :=
  match items with
  | [] => None
  | (k', v) :: items' =>
    if decide (k' = k) then Some v else lookup_key items' k
  end.

(** [k in data]: a key of an object, a substring of a string, an element
    of a list; [None] is the [TypeError] of the other values. *)
Definition contains (k : string) (data : json) : option bool :=
  match data with
  | JObject items => Some (bool_decide (is_Some (lookup_key items k)))
  | JString s => Some (substring_of k s)
  | JArray items =>
    Some (existsb (fun x => match x with
                            | JString s => bool_decide (s = k)
                            | _ => false
                            end) items)
  | _ => None
  end.

(** [data.get(k)]; [None] is the [AttributeError] of a value that is not
    an object. *)
Definition get (k : string) (data : json) : option (option json) :=
  match data with
  | JObject items => Some (lookup_key items k)
  | _ => None
  end.

(** How the JSON part of the handler ends: with [return] - also when an
    exception reaches the outer [except Exception], which only prints -
    or by going on to the protobuf part. *)
Inductive outcome :=
| Return
| Continue.

Definition json_branch (r : loads_result) : outcome :=
  match r with
  | JSONDecodeError => Continue
  | OtherError => Return
  | Loaded data =>
    match contains "code" data with
    | None => Return
    | Some has_code =>
      match (if has_code then contains "msg" data else Some false) with
      | None => Return
      | Some true => Return
      | Some false =>
        match get "msg" data with
        | None => Return
        | Some (Some (JString "PONG")) => Return
        | Some _ => Continue
        end
      end
    end
  end.

(** A message of the socket: [bytes], or [str] as its code points. *)
Inductive frame :=
| Bytes (data : list Z)
| Text (message : list Z).

Section Control.
Context {row : Type}.

(** [json.loads] on a text. *)
Variable json_loads : list Z -> loads_result.

(** The protobuf part of the handler on a [bytes] message - [_on_message]
    of [Multi] and of [Ticker] - and on a [str] message, where what
    [ParseFromString] makes of a [str] is the wrapper module's. *)
Variable on_bytes : list Z -> streamer row -> streamer row.
Variable on_text : list Z -> streamer row -> streamer row.

(** [_on_message(ws, message)] *)
Definition _on_message (message : frame) (st : streamer row) : streamer row :=
  match message with
  | Bytes data => on_bytes data st
  | Text s =>
    match json_branch (json_loads s) with
    | Return => st
    | Continue => if Pb2.len s >? 100 then on_text s st else st
    end
  end.

End Control.
End Control.

(** ** Start-up

    The first lines of [__init__], the same in both streamers:
    [self.symbols = [s.upper() for s in (symbols or SYMBOLS)]], and the
    dictionaries keyed by [self.symbols]. *)
Module Startup.
Import Store.

Section Startup.
Context {row : Type}.

(** [str.upper], which follows Unicode's case mapping and is kept
    abstract here, and the list [SYMBOLS] of the configuration. *)
Variable str_upper : string -> string.
Variable SYMBOLS : list string.

(** [symbols or SYMBOLS]: the argument, unless it is [None] or empty. *)
Definition symbols_or (symbols : option (list string)) : list string :=
  match symbols with
  | None => SYMBOLS
  | Some [] => SYMBOLS
  | Some symbols => symbols
  end.

(** [__init__(symbols)] at clock reading [now]. *)
Definition __init__ (symbols : option (list string)) (now interval : Z)
    : streamer row :=
  init (map str_upper (symbols_or symbols)) now interval.

End Startup.
End Startup.

(** ** Tactics *)

(** Turns a goal [b = true] or [b = false] over integer comparisons into
    linear arithmetic. *)
Ltac zbool :=
  repeat first
    [ rewrite andb_true_iff | rewrite andb_false_iff
    | rewrite negb_true_iff | rewrite negb_false_iff
    | rewrite Z.leb_le | rewrite Z.ltb_lt
    | rewrite Z.leb_gt | rewrite Z.ltb_ge ];
  Z.div_mod_to_equations; lia.

(** Decides the first conditional of the goal to be [b]. *)
Ltac take_branch b :=
  match goal with
  | |- context [if ?c then _ else _] =>
    let E := fresh in
    assert (c = b) as E by (unfold Utf8.continuation; zbool); rewrite E; clear E
  end.

(** * Properties *)

(** ** The decoder: progress and termination *)
Module Pb2Facts.
Import Pb2.

Lemma land_7F_range b : 0 <= Z.land b 0x7F <= 127.
Proof.
  change (Z.land b 0x7F) with (Z.land b (Z.ones 7)).
  rewrite Z.land_ones by lia. change (2 ^ 7) with 128.
  pose proof (Z.mod_pos_bound b 128). lia.
Qed.

Lemma read_varint_loop_bounds rest pos result shift :
  0 <= result -> 0 <= shift ->
  let r := read_varint_loop rest pos result shift in
  0 <= fst r /\ pos <= snd r <= pos + Z.of_nat (length rest)
  /\ (rest <> [] -> pos + 1 <= snd r).
Proof.
  revert pos result shift.
  induction rest as [|byte rest IH]; intros pos result shift Hr Hs; simpl.
  - split; [lia|]. split; [lia|]. congruence.
  - assert (0 <= Z.lor result (Z.shiftl (Z.land byte 127) shift)) as Hnn.
    { apply Z.lor_nonneg. split; [lia|].
      apply Z.shiftl_nonneg. apply land_7F_range. }
    destruct (Z.land byte 128 =? 0); simpl.
    + split; [lia|]. split; [lia|]. lia.
    + specialize (IH (pos + 1) _ (shift + 7) Hnn ltac:(lia)).
      simpl in IH. destruct IH as (? & ? & _).
      split; [lia|]. split; [lia|]. lia.
Qed.

Lemma length_drop_Z (data : list Z) pos :
  0 <= pos ->
  Z.of_nat (length (drop (Z.to_nat pos) data)) = Z.max 0 (len data - pos).
Proof. intros. rewrite length_drop. unfold len. lia. Qed.

(** [_read_varint] returns a non-negative value and never moves the
    position backwards or past the end (unless it already was there); it
    consumes a byte whenever one is left. *)
Lemma read_varint_bounds data pos :
  0 <= pos ->
  0 <= fst (_read_varint data pos)
  /\ pos <= snd (_read_varint data pos) <= Z.max pos (len data)
  /\ (pos < len data -> pos + 1 <= snd (_read_varint data pos)).
Proof.
  intros Hpos. unfold _read_varint.
  pose proof (read_varint_loop_bounds (drop (Z.to_nat pos) data) pos 0 0
                ltac:(lia) ltac:(lia)) as (H1 & H2 & H3).
  rewrite length_drop_Z in H2 by lia.
  split; [exact H1|]. split; [lia|].
  intros Hlt. apply H3. intros Hnil.
  apply (f_equal (@length Z)) in Hnil.
  apply (f_equal Z.of_nat) in Hnil.
  rewrite length_drop_Z in Hnil by lia. simpl in Hnil. lia.
Qed.

Lemma read_string_bounds data pos :
  0 <= pos ->
  snd (_read_varint data pos) <= snd (_read_string data pos).
Proof.
  intros Hpos. unfold _read_string.
  pose proof (read_varint_bounds data pos Hpos) as (Hv & _).
  destruct (_read_varint data pos) as [l p]; simpl in *.
  destruct (p + l >? len data); simpl; [lia|].
  destruct (Utf8.decode _); simpl; lia.
Qed.

Lemma skip_field_bounds data pos wire_type :
  0 <= pos -> pos <= _skip_field data pos wire_type.
Proof.
  intros Hpos. unfold _skip_field.
  pose proof (read_varint_bounds data pos Hpos) as (Hv & Hp & _).
  destruct (_read_varint data pos) as [l p]; simpl in *.
  repeat (destruct (_ =? _)); lia.
Qed.

(** Every iteration of the loop of [ParseFromString] moves on by at least
    one byte: the field header alone does. *)
Lemma parse_field_advances data self pos :
  0 <= pos < len data -> pos + 1 <= snd (parse_field data self pos).
Proof.
  intros [Hpos Hlt]. unfold parse_field, _read_field_header.
  pose proof (read_varint_bounds data pos Hpos) as (_ & Hp & Hadv).
  specialize (Hadv Hlt).
  destruct (_read_varint data pos) as [k p]; simpl in *.
  assert (0 <= p) as Hp0 by lia.
  pose proof (read_string_bounds data p Hp0) as Hs.
  pose proof (read_varint_bounds data p Hp0) as (_ & Hp' & _).
  pose proof (skip_field_bounds data p (Z.land k 7) Hp0) as Hk.
  destruct (_read_string data p) as [s q]; simpl in *.
  repeat (destruct (_ =? _)); simpl; lia.
Qed.

Lemma parse_loop_terminates data :
  forall fuel self pos,
    0 <= pos -> (Z.to_nat (len data - pos) <= fuel)%nat ->
    is_Some (parse_loop fuel data self pos).
Proof.
  induction fuel as [|fuel IH]; intros self pos Hpos Hfuel; simpl.
  - destruct (pos <? len data) eqn:E; [|eauto].
    apply Z.ltb_lt in E. lia.
  - destruct (pos <? len data) eqn:E; [|eauto].
    apply Z.ltb_lt in E.
    pose proof (parse_field_advances data self pos ltac:(lia)) as Hadv.
    destruct (parse_field data self pos) as [self' pos']; simpl in *.
    apply IH; lia.
Qed.

Lemma ParseFromString_returns self data :
  exists self', ParseFromString self data = Some (true, self').
Proof.
  unfold ParseFromString.
  destruct (parse_loop_terminates data (length data) self 0 ltac:(lia))
    as [self' E].
  { unfold len. lia. }
  exists self'. rewrite E. reflexivity.
Qed.

(** More fuel does not change the outcome of a loop that ended. *)
Lemma parse_loop_fuel_mono data :
  forall fuel fuel' self pos r,
    (fuel <= fuel')%nat ->
    parse_loop fuel data self pos = Some r ->
    parse_loop fuel' data self pos = Some r.
Proof.
  induction fuel as [|fuel IH]; intros fuel' self pos r Hle E; simpl in E.
  - destruct fuel'; simpl; destruct (pos <? len data); congruence.
  - destruct fuel' as [|fuel']; [lia|]. simpl.
    destruct (pos <? len data); [|exact E].
    destruct (parse_field data self pos) as [self' pos'].
    eapply IH; [|exact E]. lia.
Qed.

End Pb2Facts.

(** ** UTF-8 round trip *)
Module Utf8Facts.
Import Utf8.

Lemma decode_encode_char cp rest :
  scalar cp = true ->
  decode (encode_char cp ++ rest) = cons cp <$> decode rest.
Proof.
  unfold scalar. intros Hs.
  assert (0 <= cp <= 0x10FFFF /\ (cp < 0xD800 \/ 0xDFFF < cp)) as [Hr Hsur]
    by (revert Hs; zbool).
  clear Hs. unfold encode_char.
  destruct (Z.ltb_spec cp 0x80) as [H1|H1];
    [|destruct (Z.ltb_spec cp 0x800) as [H2|H2];
      [|destruct (Z.ltb_spec cp 0x10000) as [H3|H3]]];
    cbn [app decode].
  - take_branch true. reflexivity.
  - take_branch false. take_branch true. take_branch true.
    do 2 f_equal. Z.div_mod_to_equations; lia.
  - take_branch false. take_branch false. take_branch true.
    cbv zeta. take_branch true.
    do 2 f_equal. Z.div_mod_to_equations; lia.
  - take_branch false. take_branch false. take_branch false.
    take_branch true. cbv zeta. take_branch true.
    do 2 f_equal. Z.div_mod_to_equations; lia.
Qed.

Lemma decode_encode s :
  forallb scalar s = true -> decode (encode s) = Some s.
Proof.
  unfold encode. induction s as [|cp s IH]; simpl; [reflexivity|].
  intros [Hc Hs]%andb_true_iff.
  rewrite decode_encode_char, IH by assumption. reflexivity.
Qed.
End Utf8Facts.

(** ** The decoder on the frames of a reference encoder *)
Module WireFacts.
Import Pb2 Wire Pb2Facts.

Lemma encode_varint_unfold n :
  encode_varint n =
  if Z_lt_dec n 128 then [n]
  else (n mod 128 + 128) :: encode_varint (n / 128).
Proof.
  etransitivity; [apply encode_varint_equation_1|].
  destruct (Z_lt_dec n 128); reflexivity.
Qed.

Lemma encode_varint_nonempty n : (1 <= length (encode_varint n))%nat.
Proof.
  rewrite encode_varint_unfold. destruct (Z_lt_dec n 128); simpl; lia.
Qed.

(** *** Bytes of a varint *)
Lemma last_group_bits n :
  0 <= n < 128 -> Z.land n 0x7F = n /\ Z.land n 0x80 = 0.
Proof.
  intros Hn. split.
  - change (Z.land n 0x7F) with (Z.land n (Z.ones 7)).
    rewrite Z.land_ones by lia. apply Z.mod_small. simpl. lia.
  - rewrite <- (Z.mod_small n (2 ^ 7)) by (simpl; lia).
    rewrite <- Z.land_ones by lia. rewrite <- Z.land_assoc. simpl.
    apply Z.land_0_r.
Qed.

Lemma continued_group_bits n :
  Z.land (n mod 128 + 128) 0x7F = n mod 128
  /\ Z.land (n mod 128 + 128) 0x80 <> 0.
Proof.
  pose proof (Z.mod_pos_bound n 128 ltac:(lia)) as Hm.
  split.
  - change (Z.land (n mod 128 + 128) 0x7F)
      with (Z.land (n mod 128 + 128) (Z.ones 7)).
    rewrite Z.land_ones by lia. change (2 ^ 7) with 128.
    replace (n mod 128 + 128) with (n mod 128 + 1 * 128) by lia.
    rewrite Z_mod_plus_full. apply Z.mod_small. lia.
  - intros E.
    assert (Z.testbit (Z.land (n mod 128 + 128) 0x80) 7 = true) as Hb.
    { rewrite Z.land_spec.
      assert (Z.testbit (n mod 128 + 128) 7 = true) as ->.
      { apply Z.testbit_true; [lia|]. change (2 ^ 7) with 128.
        replace ((n mod 128 + 128) / 128) with 1; [reflexivity|].
        apply Z.div_unique with (r := n mod 128); [left; lia | lia]. }
      reflexivity. }
    rewrite E in Hb. rewrite Z.testbit_0_l in Hb. discriminate.
Qed.

Lemma groups_join n shift :
  0 <= shift ->
  Z.lor (Z.shiftl (n mod 128) shift) (Z.shiftl (n / 128) (shift + 7))
  = Z.shiftl n shift.
Proof.
  intros Hs.
  rewrite (Z.add_comm shift 7), <- Z.shiftl_shiftl by lia.
  rewrite <- Z.shiftl_lor. f_equal.
  change 128 with (2 ^ 7).
  rewrite <- Z.land_ones, <- Z.shiftr_div_pow2, <- Z.ldiff_ones_r by lia.
  rewrite Z.lor_comm. apply Z.lor_ldiff_and.
Qed.

Lemma read_varint_loop_encode :
  forall n, 0 <= n -> forall rest pos result shift,
    0 <= shift ->
    read_varint_loop (encode_varint n ++ rest) pos result shift
    = (Z.lor result (Z.shiftl n shift), pos + len (encode_varint n)).
Proof.
  intros n Hn. generalize Hn. revert n Hn.
  apply (Z_lt_induction (fun n => 0 <= n ->
    forall rest pos result shift, 0 <= shift ->
    read_varint_loop (encode_varint n ++ rest) pos result shift
    = (Z.lor result (Z.shiftl n shift), pos + len (encode_varint n)))).
  intros n IH Hn rest pos result shift Hs.
  rewrite encode_varint_unfold.
  destruct (Z_lt_dec n 128) as [Hlt|Hge].
  - destruct (last_group_bits n ltac:(lia)) as [E1 E2].
    cbn [app read_varint_loop]. rewrite E1, E2. reflexivity.
  - destruct (continued_group_bits n) as [E1 E2].
    cbn [app read_varint_loop]. rewrite E1.
    destruct (Z.eqb_spec (Z.land (n mod 128 + 128) 128) 0) as [E|_];
      [contradiction|].
    assert (0 <= n / 128 < n) as Hd
      by (split; [apply Z.div_pos | apply Z.div_lt]; lia).
    rewrite IH by lia.
    rewrite <- Z.lor_assoc, groups_join by lia.
    f_equal. unfold len. simpl length. lia.
Qed.

(** *** Keys *)
Lemma key_split num wire_type :
  0 <= wire_type < 8 ->
  Z.shiftr (key num wire_type) 3 = num /\ Z.land (key num wire_type) 0x7 = wire_type.
Proof.
  intros Hw. unfold key. split.
  - rewrite Z.shiftr_lor, Z.shiftr_shiftl_l by lia.
    rewrite Z.sub_diag, Z.shiftl_0_r.
    rewrite (Z.shiftr_div_pow2 wire_type) by lia.
    change (2 ^ 3) with 8. rewrite Z.div_small by lia. apply Z.lor_0_r.
  - change 0x7 with (Z.ones 3).
    rewrite Z.land_lor_distr_l, !Z.land_ones by lia.
    rewrite Z.shiftl_mul_pow2 by lia. rewrite Z.mod_mul by (simpl; lia).
    change (2 ^ 3) with 8. rewrite Z.mod_small by lia. reflexivity.
Qed.

Lemma key_nonneg num wire_type : 0 <= num -> 0 <= wire_type -> 0 <= key num wire_type.
Proof.
  intros. unfold key. apply Z.lor_nonneg. split; [|lia].
  apply Z.shiftl_nonneg. lia.
Qed.

(** *** Reading at the end of a prefix *)
Lemma len_app (a b : list Z) : len (a ++ b) = len a + len b.
Proof. unfold len. rewrite length_app. lia. Qed.

Lemma len_nonneg (a : list Z) : 0 <= len a.
Proof. unfold len. lia. Qed.

Lemma drop_len (pre rest : list Z) :
  drop (Z.to_nat (len pre)) (pre ++ rest) = rest.
Proof. unfold len. rewrite Nat2Z.id. apply drop_app_length. Qed.

Lemma read_varint_at pre n rest :
  0 <= n ->
  _read_varint (pre ++ encode_varint n ++ rest) (len pre)
  = (n, len pre + len (encode_varint n)).
Proof.
  intros Hn. unfold _read_varint. rewrite drop_len.
  rewrite read_varint_loop_encode by lia.
  rewrite Z.shiftl_0_r, Z.lor_0_l. reflexivity.
Qed.

Lemma slice_at (pre payload rest : list Z) :
  slice (pre ++ payload ++ rest) (len pre) (len pre + len payload) = payload.
Proof.
  unfold slice. rewrite drop_len.
  replace (Z.to_nat (len pre + len payload) - Z.to_nat (len pre))%nat
    with (length payload) by (unfold len; lia).
  apply take_app_length.
Qed.

Lemma read_string_at pre payload rest s :
  Utf8.decode payload = Some s ->
  _read_string (pre ++ encode_varint (len payload) ++ payload ++ rest) (len pre)
  = (s, len pre + len (encode_varint (len payload)) + len payload).
Proof.
  intros Hdec. unfold _read_string.
  rewrite read_varint_at by apply len_nonneg.
  rewrite <- len_app.
  assert ((len (pre ++ encode_varint (len payload)) + len payload >?
           len (pre ++ encode_varint (len payload) ++ payload ++ rest))
          = false) as ->.
  { rewrite Z.gtb_ltb. apply Z.ltb_ge. rewrite !len_app.
    pose proof (len_nonneg rest). lia. }
  rewrite (app_assoc pre), slice_at, Hdec. reflexivity.
Qed.

Lemma skip_varint_at pre v rest :
  0 <= v ->
  _skip_field (pre ++ encode_varint v ++ rest) (len pre) 0
  = len pre + len (encode_varint v).
Proof.
  intros Hv. unfold _skip_field. simpl.
  rewrite read_varint_at by lia. reflexivity.
Qed.

Lemma skip_bytes_at pre raw rest :
  _skip_field (pre ++ encode_varint (len raw) ++ raw ++ rest) (len pre) 2
  = len pre + len (encode_varint (len raw)) + len raw.
Proof.
  unfold _skip_field. simpl.
  rewrite read_varint_at by apply len_nonneg. reflexivity.
Qed.

Lemma skip_fixed64_at data pos : _skip_field data pos 1 = pos + 8.
Proof. reflexivity. Qed.

Lemma skip_fixed32_at data pos : _skip_field data pos 5 = pos + 4.
Proof. reflexivity. Qed.


Lemma read_field_header_at pre num wire_type rest :
  0 <= num -> 0 <= wire_type < 8 ->
  _read_field_header (pre ++ encode_varint (key num wire_type) ++ rest) (len pre)
  = (num, wire_type, len pre + len (encode_varint (key num wire_type))).
Proof.
  intros Hn Hw. unfold _read_field_header.
  rewrite read_varint_at by (apply key_nonneg; lia).
  destruct (key_split num wire_type Hw) as [-> ->]. reflexivity.
Qed.

(** *** One field *)
Lemma known_cases num : known num = true -> num = 1 \/ num = 2 \/ num = 3 \/ num = 4.
Proof. unfold known. rewrite andb_true_iff, !Z.leb_le. lia. Qed.

Lemma parse_field_unknown data self pos field_num wire_type pos' :
  _read_field_header data pos = (field_num, wire_type, pos') ->
  4 < field_num ->
  parse_field data self pos = (self, _skip_field data pos' wire_type).
Proof.
  intros E Hn. unfold parse_field. rewrite E.
  destruct (Z.eqb_spec field_num 1); [lia|].
  destruct (Z.eqb_spec field_num 2); [lia|].
  destruct (Z.eqb_spec field_num 3); [lia|].
  destruct (Z.eqb_spec field_num 4); [lia|]. reflexivity.
Qed.

Lemma parse_field_at pre f rest self :
  valid_field f = true ->
  parse_field (pre ++ encode_field f ++ rest) self (len pre)
  = (assign self f, len pre + len (encode_field f)).
Proof.
  destruct f as [num s|num v|num raw|num raw|num raw]; simpl;
    unfold length_delimited; rewrite <- ?app_assoc.
  - intros [Hk Hs]%andb_true_iff.
    pose proof (Utf8Facts.decode_encode s Hs) as Hdec.
    pose proof (read_string_at
                  (pre ++ encode_varint (key num 2)) (Utf8.encode s) rest s Hdec)
      as Hstr.
    rewrite <- app_assoc, len_app in Hstr.
    unfold parse_field.
    rewrite read_field_header_at by (apply known_cases in Hk; lia).
    rewrite Hstr, !len_app.
    destruct (known_cases num Hk) as [->|[->|[->| ->]]]; simpl;
      f_equal; lia.
  - intros [Hn Hv]%andb_true_iff.
    apply Z.ltb_lt in Hn. apply Z.leb_le in Hv.
    erewrite parse_field_unknown;
      [|apply read_field_header_at; lia|lia].
    rewrite <- len_app, (app_assoc pre), skip_varint_at by lia.
    rewrite !len_app. f_equal. lia.
  - intros [Hn Hl]%andb_true_iff.
    apply Z.ltb_lt in Hn. apply Nat.eqb_eq in Hl.
    erewrite parse_field_unknown;
      [|apply read_field_header_at; lia|lia].
    assert (len raw = 8) as Hlen by (unfold len; lia).
    rewrite skip_fixed64_at, !len_app, Hlen. f_equal. lia.
  - intros Hn. apply Z.ltb_lt in Hn.
    erewrite parse_field_unknown;
      [|apply read_field_header_at; lia|lia].
    rewrite <- len_app, (app_assoc pre), skip_bytes_at.
    rewrite !len_app. f_equal. lia.
  - intros [Hn Hl]%andb_true_iff.
    apply Z.ltb_lt in Hn. apply Nat.eqb_eq in Hl.
    erewrite parse_field_unknown;
      [|apply read_field_header_at; lia|lia].
    assert (len raw = 4) as Hlen by (unfold len; lia).
    rewrite skip_fixed32_at, !len_app, Hlen. f_equal. lia.
Qed.

Lemma encode_field_nonempty f : (1 <= length (encode_field f))%nat.
Proof.
  destruct f; simpl; unfold length_delimited; rewrite length_app;
    match goal with
    | |- context [encode_varint (key ?n ?w)] =>
      pose proof (encode_varint_nonempty (key n w))
    end; lia.
Qed.

Lemma encode_frame_length fs : (length fs <= length (encode_frame fs))%nat.
Proof.
  unfold encode_frame. induction fs as [|f fs IH]; simpl; [lia|].
  rewrite length_app. pose proof (encode_field_nonempty f). lia.
Qed.

(** *** A whole frame *)
Lemma parse_loop_frame fs :
  forallb valid_field fs = true ->
  forall pre self fuel,
    (length fs <= fuel)%nat ->
    parse_loop fuel (pre ++ encode_frame fs) self (len pre)
    = Some (foldl assign self fs).
Proof.
  unfold encode_frame.
  induction fs as [|f fs IH]; intros Hv pre self fuel Hfuel.
  - simpl. rewrite app_nil_r.
    destruct fuel; simpl; rewrite Z.ltb_irrefl; reflexivity.
  - simpl in Hv. apply andb_true_iff in Hv as [Hf Hfs].
    destruct fuel as [|fuel]; [simpl in Hfuel; lia|].
    cbn [map concat parse_loop foldl].
    assert ((len pre <? len (pre ++ encode_field f ++ concat (map encode_field fs)))
            = true) as ->.
    { apply Z.ltb_lt. rewrite !len_app.
      pose proof (encode_field_nonempty f).
      pose proof (len_nonneg (concat (map encode_field fs))).
      unfold len in *. lia. }
    rewrite parse_field_at by assumption.
    rewrite <- len_app, app_assoc.
    apply IH; [assumption|simpl in Hfuel; lia].
Qed.
End WireFacts.

(** ** Claims about the decoder *)
Module DecoderClaims.
Import Pb2 Wire Pb2Facts WireFacts.

Lemma read_varint_loop_cut rest :
  Forall (fun b => Z.land b 0x80 <> 0) rest ->
  forall pos result shift,
    snd (read_varint_loop rest pos result shift) = pos + len rest.
Proof.
  induction 1 as [|b rest Hb _ IH]; intros pos result shift; simpl.
  - unfold len. simpl. lia.
  - destruct (Z.eqb_spec (Z.land b 128) 0) as [E|_]; [contradiction|].
    rewrite IH. unfold len. simpl length. lia.
Qed.

(** C2, as the code has it.  No frame makes [ParseFromString] fail: it
    returns [True] for every input.  A length-delimited payload of a known
    field that would read past the frame boundary is replaced by the empty
    string, the position staying just after the length varint; a varint
    cut by the frame boundary (every remaining byte has its continuation
    bit set) is read without error and ends at the frame boundary. *)
Theorem truncated_frame_is_accepted (data : list Z) :
  (forall self, exists self', ParseFromString self data = Some (true, self'))
  /\ (forall pos,
        snd (_read_varint data pos) + fst (_read_varint data pos) > len data ->
        _read_string data pos = ([], snd (_read_varint data pos)))
  /\ (forall pos,
        0 <= pos <= len data ->
        Forall (fun b => Z.land b 0x80 <> 0) (drop (Z.to_nat pos) data) ->
        snd (_read_varint data pos) = len data).
Proof.
  split; [|split].
  - intros self. apply ParseFromString_returns.
  - intros pos Hpast. unfold _read_string.
    destruct (_read_varint data pos) as [l p]; simpl in *.
    destruct (Z.gtb_spec (p + l) (len data)) as [_|Hle]; [reflexivity|lia].
  - intros pos Hpos Hcut. unfold _read_varint.
    rewrite read_varint_loop_cut by assumption.
    unfold len in *. rewrite length_drop. lia.
Qed.

Lemma truncated_frame_is_accepted_witness :
  _read_string [0x0A; 0x05; 0x31] 1 = ([], 2)
  /\ snd (_read_varint [0x0A; 0x85] 1) = 2.
Proof.
  split.
  - apply (proj1 (proj2 (truncated_frame_is_accepted [0x0A; 0x05; 0x31])) 1).
    vm_compute. reflexivity.
  - apply (proj2 (proj2 (truncated_frame_is_accepted [0x0A; 0x85])) 1).
    + unfold len. simpl. lia.
    + repeat constructor; vm_compute; discriminate.
Defined.

(** C2 as stated fails.  The frame below carries field 1 = "100" and then
    field 3 announcing 5 bytes of which 2 are present: decoding does not
    fail, it returns [True] with the value of field 1 and the empty string
    substituted for field 3. *)
Lemma truncated_frame_not_refused :
  ParseFromString __init__ [0x0A; 0x03; 0x31; 0x30; 0x30; 0x1A; 0x05; 0x31; 0x30]
  = Some (true, mkTicker [0x31; 0x30; 0x30] [] [] []).
Proof. vm_compute. reflexivity. Qed.

(** C3.  For every frame a reference protobuf encoder builds over the
    book-ticker schema (fields 1 to 4 as length-delimited UTF-8 strings,
    other fields as varint, 8-byte, length-delimited or 4-byte values),
    [ParseFromString] recovers exactly the encoded strings, the last
    occurrence of a field winning; and every field, known or not, read at
    any offset of any frame, moves the position by exactly its encoded
    length, an unknown one leaving the object untouched. *)
Theorem ParseFromString_roundtrip (fs : list field)
    (self : PublicAggreBookTickerV3Api) :
  forallb valid_field fs = true ->
  ParseFromString self (encode_frame fs) = Some (true, foldl assign self fs)
  /\ (forall pre f rest self,
        valid_field f = true ->
        parse_field (pre ++ encode_field f ++ rest) self (len pre)
        = (assign self f, len pre + len (encode_field f))
        /\ (known (number f) = false -> assign self f = self)).
Proof.
  intros Hv. split.
  - unfold ParseFromString.
    pose proof (parse_loop_frame fs Hv [] self (length (encode_frame fs))
                  (encode_frame_length fs)) as E.
    simpl in E. change (len []) with 0 in E. rewrite E. reflexivity.
  - intros pre f rest self' Hf. split; [apply parse_field_at; assumption|].
    destruct f; simpl; try reflexivity.
    apply andb_true_iff in Hf as [Hk _]. congruence.
Qed.

Lemma ParseFromString_roundtrip_witness :
  ParseFromString __init__ (encode_frame Demo.example_frame)
  = Some (true, mkTicker [50] [] [49; 48; 49; 0x20AC] []).
Proof.
  exact (proj1 (ParseFromString_roundtrip Demo.example_frame __init__ eq_refl)).
Defined.

(** C9.  [ParseFromString] terminates on every input: the loop ends within
    [len(data)] iterations, because every iteration, whatever the field
    number and wire type it meets, moves the position on by at least one
    byte, the field-header varint alone consuming one whenever the
    position is inside the frame. *)
Theorem ParseFromString_terminates (data : list Z) :
  (forall self, exists self', ParseFromString self data = Some (true, self'))
  /\ (forall self pos,
        0 <= pos < len data -> pos + 1 <= snd (parse_field data self pos))
  /\ (forall pos,
        0 <= pos < len data -> pos + 1 <= snd (_read_field_header data pos)).
Proof.
  split; [|split].
  - intros self. apply ParseFromString_returns.
  - intros self pos Hpos. apply parse_field_advances. assumption.
  - intros pos [Hpos Hlt]. unfold _read_field_header.
    pose proof (read_varint_bounds data pos Hpos) as (_ & _ & Hadv).
    destruct (_read_varint data pos); simpl in *. auto.
Qed.

Lemma ParseFromString_terminates_witness :
  0 + 1 <= snd (parse_field [0x38; 0xFF] __init__ 0).
Proof.
  apply (proj1 (proj2 (ParseFromString_terminates [0x38; 0xFF]))).
  unfold len. simpl. lia.
Defined.

End DecoderClaims.

(** ** The buffers: what each step does to one symbol *)
Module StoreFacts.
Import Store.

Section StoreFacts.
Context {row : Type} (to_csv_row : row -> csv_row).
Implicit Types (st : streamer row) (s symbol : string)
  (steps : list (step row)).

Lemma dict_of_symbols_lookup {V} (syms : list string) (v : V) s :
  s ∈ syms -> dict_of_symbols syms v !! s = Some v.
Proof.
  unfold dict_of_symbols. induction syms as [|s0 syms IH]; intros Hin.
  - inversion Hin.
  - simpl. destruct (decide (s0 = s)) as [->|Hne].
    + apply lookup_insert_eq.
    + rewrite lookup_insert_ne by assumption. apply IH.
      apply elem_of_cons in Hin as [->|]; [contradiction|assumption].
Qed.

Lemma init_state syms now interval s :
  s ∈ syms ->
  has_keys s (init (row := row) syms now interval)
  /\ buffered s (init (row := row) syms now interval) = []
  /\ persisted s (init (row := row) syms now interval) = []
  /\ counter s (init (row := row) syms now interval) = 0.
Proof.
  intros Hin. unfold has_keys, buffered, persisted, counter, init. simpl.
  rewrite !dict_of_symbols_lookup by assumption. simpl. eauto 6.
Qed.

(** *** [append_row] *)
Lemma append_row_same s r st :
  has_keys s st ->
  buffered s (append_row s r st) = buffered s st ++ [r]
  /\ persisted s (append_row s r st) = persisted s st
  /\ counter s (append_row s r st) = counter s st + 1.
Proof.
  intros ([buf Hb] & [n Hn] & _).
  unfold buffered, persisted, counter, append_row.
  rewrite Hb. simpl. rewrite Hn. simpl.
  rewrite !lookup_insert_eq. auto.
Qed.

Lemma append_row_other s s' r st :
  s <> s' ->
  buffered s' (append_row s r st) = buffered s' st
  /\ persisted s' (append_row s r st) = persisted s' st
  /\ counter s' (append_row s r st) = counter s' st.
Proof.
  intros Hne. unfold buffered, persisted, counter, append_row.
  destruct (data_buffers st !! s) as [buf|]; [|auto]. simpl.
  destruct (total st !! s) as [n|]; simpl;
    rewrite ?lookup_insert_ne by assumption; auto.
Qed.

Lemma append_row_keys s s' r st :
  has_keys s' st -> has_keys s' (append_row s r st).
Proof.
  intros (Hb & Hn & Hf). unfold has_keys, append_row.
  destruct (data_buffers st !! s) as [buf|] eqn:Eb; [|auto]. simpl.
  destruct (total st !! s) as [n|] eqn:En; simpl;
    repeat split; try assumption;
    rewrite lookup_insert; case_decide; subst; eauto.
Qed.

Lemma append_row_frame s r st :
  symbols (append_row s r st) = symbols st
  /\ last_save_time (append_row s r st) = last_save_time st
  /\ save_interval (append_row s r st) = save_interval st
  /\ csv_files (append_row s r st) = csv_files st.
Proof.
  unfold append_row.
  destruct (data_buffers st !! s); [|auto]. simpl.
  destruct (total st !! s); simpl; auto.
Qed.

(** *** [flush_symbol] *)

(** What a flush does to its own symbol: a successful sink call writes
    the batch and empties the buffer, a raising one keeps the buffer and
    leaves in the file the rows that had reached it. *)
Lemma flush_symbol_effect s sink st :
  has_keys s st ->
  let st' := state_of (flush_symbol to_csv_row s sink st) in
  buffered s st'
  = match sink with Succeeds => [] | Raises _ => buffered s st end
  /\ persisted s st'
     = persisted s st
       ++ match sink with
          | Succeeds => map to_csv_row (buffered s st)
          | Raises written => take written (map to_csv_row (buffered s st))
          end.
Proof.
  intros ([buf Hb] & _ & [batches Hf]).
  unfold flush_symbol, buffered, persisted. rewrite Hb, Hf. simpl.
  destruct buf as [|r buf]; simpl.
  - rewrite Hb, Hf. simpl. destruct sink as [|written]; simpl;
      rewrite ?take_nil, app_nil_r; auto.
  - destruct sink as [|written]; simpl.
    + rewrite !lookup_insert_eq. simpl.
      rewrite concat_app. simpl. rewrite app_nil_r. auto.
    + destruct (take written (to_csv_row r :: map to_csv_row buf))
        as [|line part]; simpl.
      * rewrite Hb, Hf. simpl. rewrite app_nil_r. auto.
      * rewrite Hb, lookup_insert_eq. simpl.
        rewrite concat_app. simpl. rewrite app_nil_r. auto.
Qed.

(** A sink call that raises before anything is written changes
    nothing. *)
Lemma flush_symbol_down s st :
  state_of (flush_symbol to_csv_row s (Raises 0) st) = st.
Proof.
  unfold flush_symbol.
  destruct (data_buffers st !! s) as [[|r buf]|]; simpl; try reflexivity.
  destruct (csv_files st !! s); reflexivity.
Qed.

(** A sink call that raises keeps every buffer. *)
Lemma flush_symbol_raises s written st :
  data_buffers (state_of (flush_symbol to_csv_row s (Raises written) st))
  = data_buffers st.
Proof.
  unfold flush_symbol.
  destruct (data_buffers st !! s) as [[|r buf]|]; simpl; try reflexivity.
  destruct (csv_files st !! s); simpl; try reflexivity.
  destruct (take written _); reflexivity.
Qed.

Lemma flush_symbol_raises_inl s written st :
  buffered s st <> [] ->
  exists st', flush_symbol to_csv_row s (Raises written) st = inl st'.
Proof.
  unfold flush_symbol, buffered.
  destruct (data_buffers st !! s) as [[|r buf]|]; simpl;
    [congruence| |eauto]. intros _.
  destruct (csv_files st !! s); simpl; [|eauto].
  destruct (take written _); eauto.
Qed.

(** The rows a flush drains from its own symbol. *)
Lemma flush_symbol_drained s sink st :
  has_keys s st ->
  step_drained to_csv_row s st (Flush s sink)
  = match sink with Succeeds => buffered s st | Raises _ => [] end.
Proof.
  intros ([buf Hb] & _ & [batches Hf]).
  unfold step_drained, flush_symbol, buffered.
  rewrite decide_True by reflexivity. rewrite Hb, Hf. simpl.
  destruct buf as [|r buf]; [destruct sink; reflexivity|].
  destruct sink as [|written]; [reflexivity|].
  destruct (take written _); reflexivity.
Qed.

Lemma flush_symbol_other s s' sink st :
  s <> s' ->
  let st' := state_of (flush_symbol to_csv_row s sink st) in
  data_buffers st' !! s' = data_buffers st !! s'
  /\ csv_files st' !! s' = csv_files st !! s'
  /\ buffered s' st' = buffered s' st
  /\ persisted s' st' = persisted s' st
  /\ counter s' st' = counter s' st.
Proof.
  intros Hne. unfold flush_symbol, buffered, persisted, counter.
  destruct (data_buffers st !! s) as [[|r buf]|]; simpl; auto.
  destruct (csv_files st !! s); simpl; auto.
  destruct sink as [|written]; simpl.
  - rewrite !lookup_insert_ne by assumption. auto.
  - destruct (take written _); simpl; auto.
    rewrite !lookup_insert_ne by assumption. auto.
Qed.

Lemma flush_symbol_keys s s' sink st :
  has_keys s' st -> has_keys s' (state_of (flush_symbol to_csv_row s sink st)).
Proof.
  intros (Hb & Hn & Hf). unfold has_keys, flush_symbol.
  destruct (data_buffers st !! s) as [[|r buf]|]; simpl; auto.
  destruct (csv_files st !! s); simpl; auto.
  destruct sink as [|written]; simpl.
  - repeat split; try assumption;
      rewrite lookup_insert; case_decide; subst; eauto.
  - destruct (take written _); simpl; auto.
    repeat split; try assumption;
      rewrite lookup_insert; case_decide; subst; eauto.
Qed.

Lemma flush_symbol_frame s sink st :
  let st' := state_of (flush_symbol to_csv_row s sink st) in
  symbols st' = symbols st
  /\ last_save_time st' = last_save_time st
  /\ save_interval st' = save_interval st
  /\ total st' = total st.
Proof.
  unfold flush_symbol.
  destruct (data_buffers st !! s) as [[|r buf]|]; simpl; auto.
  destruct (csv_files st !! s); simpl; auto.
  destruct sink as [|written]; simpl; auto.
  destruct (take written _); simpl; auto.
Qed.

Lemma flush_symbol_empty s s' sink st :
  buffered s st = [] ->
  buffered s (state_of (flush_symbol to_csv_row s' sink st)) = [].
Proof.
  intros He. destruct (decide (s' = s)) as [->|Hne].
  - revert He. unfold flush_symbol, buffered.
    destruct (data_buffers st !! s) as [[|r buf]|] eqn:Eb; simpl;
      rewrite ?Eb; simpl; auto; discriminate.
  - destruct (flush_symbol_other s' s sink st Hne) as (_ & _ & -> & _).
    assumption.
Qed.

(** *** [append_rows] *)
Lemma append_rows_keys s s' rows st :
  has_keys s' st -> has_keys s' (append_rows s rows st).
Proof.
  unfold append_rows. revert st.
  induction rows as [|r rows IH]; intros st Hk; simpl; [assumption|].
  apply IH, append_row_keys, Hk.
Qed.

Lemma append_rows_same s rows st :
  has_keys s st ->
  buffered s (append_rows s rows st) = buffered s st ++ rows
  /\ persisted s (append_rows s rows st) = persisted s st
  /\ counter s (append_rows s rows st) = counter s st + Z.of_nat (length rows).
Proof.
  unfold append_rows. revert st.
  induction rows as [|r rows IH]; intros st Hk; simpl.
  - rewrite app_nil_r. split; [reflexivity|]. split; [reflexivity|]. lia.
  - destruct (append_row_same s r st Hk) as (Eb & Ep & Ec).
    destruct (IH (append_row s r st) (append_row_keys s s r st Hk))
      as (-> & -> & ->).
    rewrite Eb, Ep, Ec, <- app_assoc.
    split; [reflexivity|]. split; [reflexivity|]. lia.
Qed.

Lemma append_rows_other s s' rows st :
  s <> s' ->
  buffered s' (append_rows s rows st) = buffered s' st
  /\ persisted s' (append_rows s rows st) = persisted s' st
  /\ counter s' (append_rows s rows st) = counter s' st.
Proof.
  intros Hne. unfold append_rows. revert st.
  induction rows as [|r rows IH]; intros st; simpl; [auto|].
  destruct (IH (append_row s r st)) as (-> & -> & ->).
  apply append_row_other, Hne.
Qed.

Lemma append_rows_frame s rows st :
  symbols (append_rows s rows st) = symbols st
  /\ last_save_time (append_rows s rows st) = last_save_time st
  /\ save_interval (append_rows s rows st) = save_interval st.
Proof.
  unfold append_rows. revert st.
  induction rows as [|r rows IH]; intros st; simpl; [auto|].
  destruct (IH (append_row s r st)) as (-> & -> & ->).
  destruct (append_row_frame s r st) as (-> & -> & -> & _). auto.
Qed.

Lemma append_row_counter_le s s' r st :
  counter s' st <= counter s' (append_row s r st).
Proof.
  unfold counter, append_row.
  destruct (data_buffers st !! s); [|lia]. simpl.
  destruct (total st !! s) as [n|] eqn:En; simpl; [|lia].
  destruct (decide (s = s')) as [->|Hne].
  - rewrite lookup_insert_eq, En. simpl. lia.
  - rewrite lookup_insert_ne by assumption. lia.
Qed.

Lemma append_rows_counter_le s s' rows st :
  counter s' st <= counter s' (append_rows s rows st).
Proof.
  unfold append_rows. revert st.
  induction rows as [|r rows IH]; intros st; simpl; [lia|].
  pose proof (append_row_counter_le s s' r st).
  pose proof (IH (append_row s r st)). lia.
Qed.

(** *** Steps and runs *)
Lemma appended_cons s x steps :
  appended s (x :: steps) = step_rows s x ++ appended s steps.
Proof. reflexivity. Qed.

Lemma run_cons st x steps :
  run to_csv_row st (x :: steps) = run to_csv_row (run_step to_csv_row st x) steps.
Proof. reflexivity. Qed.

Lemma run_app st steps (steps' : list (step row)) :
  run to_csv_row st (steps ++ steps')
  = run to_csv_row (run to_csv_row st steps) steps'.
Proof. unfold run. apply foldl_app. Qed.

Lemma appended_app s steps (steps' : list (step row)) :
  appended s (steps ++ steps') = appended s steps ++ appended s steps'.
Proof. unfold appended. rewrite map_app, concat_app. reflexivity. Qed.

Lemma drained_cons s st x steps :
  drained to_csv_row s st (x :: steps)
  = step_drained to_csv_row s st x
    ++ drained to_csv_row s (run_step to_csv_row st x) steps.
Proof. reflexivity. Qed.

Lemma drained_app s steps (steps' : list (step row)) :
  forall st,
    drained to_csv_row s st (steps ++ steps')
    = drained to_csv_row s st steps
      ++ drained to_csv_row s (run to_csv_row st steps) steps'.
Proof.
  induction steps as [|x steps IH]; intros st; [reflexivity|].
  change ((x :: steps) ++ steps') with (x :: (steps ++ steps')).
  rewrite !drained_cons, IH, app_assoc. reflexivity.
Qed.

(** One step, seen from one symbol: the rows it drains followed by the
    buffer it leaves are the buffer it found followed by the rows it
    appends; the counter grows by the rows appended; the file grows by
    the rows written, which hold the drained rows and are exactly they
    unless a sink call raised after writing. *)
Lemma run_step_effect s st x :
  has_keys s st ->
  let st' := run_step to_csv_row st x in
  has_keys s st'
  /\ step_drained to_csv_row s st x ++ buffered s st'
     = buffered s st ++ step_rows s x
  /\ counter s st' = counter s st + Z.of_nat (length (step_rows s x))
  /\ exists w,
       persisted s st' = persisted s st ++ w
       /\ sublist (map to_csv_row (step_drained to_csv_row s st x)) w
       /\ (writes_nothing_on_failure x ->
           w = map to_csv_row (step_drained to_csv_row s st x)).
Proof.
  intros Hk. destruct x as [s' rows|s' sink|now|]; cbv zeta.
  - split; [apply append_rows_keys, Hk|]. simpl.
    destruct (decide (s' = s)) as [->|Hne].
    + destruct (append_rows_same s rows st Hk) as (-> & -> & ->).
      split; [reflexivity|]. split; [reflexivity|].
      exists []. rewrite app_nil_r. auto.
    + destruct (append_rows_other s' s rows st Hne) as (-> & -> & ->).
      rewrite app_nil_r. split; [reflexivity|]. split; [simpl; lia|].
      exists []. rewrite app_nil_r. auto.
  - split; [apply flush_symbol_keys, Hk|].
    simpl run_step. simpl step_rows. rewrite app_nil_r.
    destruct (decide (s' = s)) as [->|Hne].
    + rewrite (flush_symbol_drained s sink st Hk).
      destruct (flush_symbol_effect s sink st Hk) as [-> ->].
      unfold counter at 1.
      destruct (flush_symbol_frame s sink st) as (_ & _ & _ & ->).
      fold (counter s st).
      destruct sink as [|written].
      * rewrite app_nil_r. split; [reflexivity|]. split; [simpl; lia|].
        eexists. split; [reflexivity|]. auto.
      * split; [reflexivity|]. split; [simpl; lia|].
        eexists. split; [reflexivity|]. split; [apply sublist_nil_l|].
        simpl. destruct written; [reflexivity|contradiction].
    + destruct (flush_symbol_other s' s sink st Hne)
        as (_ & _ & -> & -> & ->).
      unfold step_drained. rewrite decide_False by assumption.
      split; [reflexivity|]. split; [simpl; lia|].
      exists []. rewrite app_nil_r. auto.
  - simpl. rewrite app_nil_r. split; [exact Hk|].
    split; [reflexivity|]. split; [unfold counter; simpl; lia|].
    exists []. rewrite app_nil_r. auto.
  - simpl. rewrite app_nil_r. split; [exact Hk|]. split; [reflexivity|].
    split; [lia|]. exists []. rewrite app_nil_r. auto.
Qed.

(** Nothing is lost and nothing is drained twice: after any run, the
    rows drained from a symbol's buffer followed by the buffer are what
    the buffer held before followed by the rows appended during the run;
    the counter has grown by their number; and the file has grown by
    rows that hold the drained rows, in order, and are exactly they when
    no sink call raised after writing. *)
Lemma run_effect s steps :
  forall st,
    has_keys s st ->
    has_keys s (run to_csv_row st steps)
    /\ drained to_csv_row s st steps ++ buffered s (run to_csv_row st steps)
       = buffered s st ++ appended s steps
    /\ counter s (run to_csv_row st steps)
       = counter s st + Z.of_nat (length (appended s steps))
    /\ exists w,
         persisted s (run to_csv_row st steps) = persisted s st ++ w
         /\ sublist (map to_csv_row (drained to_csv_row s st steps)) w
         /\ (Forall writes_nothing_on_failure steps ->
             w = map to_csv_row (drained to_csv_row s st steps)).
Proof.
  induction steps as [|x steps IH]; intros st Hk.
  - simpl. rewrite app_nil_r. split; [exact Hk|].
    split; [reflexivity|]. split; [simpl; lia|].
    exists []. rewrite app_nil_r. auto.
  - rewrite run_cons, appended_cons, drained_cons.
    destruct (run_step_effect s st x Hk) as (Hk' & E & Ec & w1 & Ep & Hs & Hw).
    destruct (IH _ Hk') as (Hk'' & E' & Ec' & w2 & Ep' & Hs' & Hw').
    split; [exact Hk''|]. split; [|split].
    + rewrite <- app_assoc, E', app_assoc, E, <- app_assoc. reflexivity.
    + rewrite Ec', Ec, length_app. lia.
    + exists (w1 ++ w2). split; [rewrite Ep', Ep, app_assoc; reflexivity|].
      rewrite map_app. split; [apply sublist_app; assumption|].
      intros Hall. apply Forall_cons in Hall as [Hx Hall].
      rewrite (Hw Hx), (Hw' Hall). reflexivity.
Qed.

Lemma run_step_counter_le s st x :
  counter s st <= counter s (run_step to_csv_row st x).
Proof.
  destruct x as [s' rows|s' sink|now|]; simpl.
  - apply append_rows_counter_le.
  - unfold counter.
    destruct (flush_symbol_frame s' sink st) as (_ & _ & _ & ->). lia.
  - unfold counter. simpl. lia.
  - lia.
Qed.


(** *** [save_data_to_csv] *)
Lemma save_loop_steps syms (sink : string -> sink_result) :
  forall st acc,
    exists steps,
      state_of (save_loop to_csv_row syms sink st acc)
      = run to_csv_row st steps
      /\ forall s, appended s steps = [].
Proof.
  induction syms as [|a syms IH]; intros st acc; simpl.
  - exists []. auto.
  - destruct (flush_symbol to_csv_row a (sink a) st)
      as [st'|[st' saved]] eqn:E.
    + exists [Flush a (sink a)]. simpl. rewrite E. auto.
    + destruct (IH st' (acc + saved)) as (steps & Hrun & Happ).
      exists (Flush a (sink a) :: steps). rewrite run_cons. simpl.
      rewrite E. simpl. split; [exact Hrun|].
      intros s. rewrite appended_cons. simpl. apply Happ.
Qed.

Lemma save_data_to_csv_steps now (sink : string -> sink_result) st :
  exists steps,
    save_data_to_csv to_csv_row now sink st = run to_csv_row st steps
    /\ forall s, appended s steps = [].
Proof.
  unfold save_data_to_csv.
  destruct (save_loop_steps (symbols st) sink st 0)
    as (steps & Hrun & Happ).
  destruct (save_loop to_csv_row (symbols st) sink st 0)
    as [st'|[st' saved]]; simpl in Hrun.
  - exists steps. auto.
  - exists (steps ++ [Saved now]). rewrite run_app, <- Hrun.
    split; [reflexivity|].
    intros s. rewrite appended_app, Happ. reflexivity.
Qed.

Lemma save_loop_frame syms (sink : string -> sink_result) :
  forall st acc,
    let st' := state_of (save_loop to_csv_row syms sink st acc) in
    symbols st' = symbols st /\ last_save_time st' = last_save_time st
    /\ save_interval st' = save_interval st /\ total st' = total st.
Proof.
  induction syms as [|a syms IH]; intros st acc; simpl; [auto|].
  pose proof (flush_symbol_frame a (sink a) st) as Hf.
  destruct (flush_symbol to_csv_row a (sink a) st)
    as [st'|[st' saved]]; simpl in *; [exact Hf|].
  destruct Hf as (<- & <- & <- & <-). apply IH.
Qed.

Lemma save_loop_keys s syms (sink : string -> sink_result) :
  forall st acc,
    has_keys s st ->
    has_keys s (state_of (save_loop to_csv_row syms sink st acc)).
Proof.
  induction syms as [|a syms IH]; intros st acc Hk; simpl; [exact Hk|].
  pose proof (flush_symbol_keys a s (sink a) st Hk) as Hf.
  destruct (flush_symbol to_csv_row a (sink a) st)
    as [st'|[st' saved]]; simpl in *; [exact Hf|]. apply IH, Hf.
Qed.

(** With a non-empty buffer whose sink call raises, the loop is left by
    the exception. *)
Lemma save_loop_aborts s written syms (sink : string -> sink_result) :
  sink s = Raises written ->
  forall st acc,
    s ∈ syms -> buffered s st <> [] ->
    exists st', save_loop to_csv_row syms sink st acc = inl st'.
Proof.
  intros Hfail. induction syms as [|a syms IH]; intros st acc Hin Hne.
  - inversion Hin.
  - simpl.
    destruct (flush_symbol to_csv_row a (sink a) st)
      as [st'|[st' saved]] eqn:E; [eauto|].
    destruct (decide (a = s)) as [->|Hns].
    + exfalso. rewrite Hfail in E.
      destruct (flush_symbol_raises_inl s written st Hne) as (st0 & E0).
      congruence.
    + apply IH.
      * apply elem_of_cons in Hin as [->|]; [contradiction|assumption].
      * pose proof (flush_symbol_other a s (sink a) st Hns)
          as (_ & _ & Hb & _).
        rewrite E in Hb. simpl in Hb. rewrite Hb. exact Hne.
Qed.

Lemma save_loop_empty s syms (sink : string -> sink_result) :
  forall st acc,
    buffered s st = [] ->
    buffered s (state_of (save_loop to_csv_row syms sink st acc)) = [].
Proof.
  induction syms as [|a syms IH]; intros st acc He; simpl; [exact He|].
  pose proof (flush_symbol_empty s a (sink a) st He) as Hf.
  destruct (flush_symbol to_csv_row a (sink a) st)
    as [st'|[st' saved]]; simpl in *; [exact Hf|]. apply IH, Hf.
Qed.

Lemma save_loop_app syms1 syms2 (sink : string -> sink_result) st acc :
  save_loop to_csv_row (syms1 ++ syms2) sink st acc
  = match save_loop to_csv_row syms1 sink st acc with
    | inl st1 => inl st1
    | inr (st1, n) => save_loop to_csv_row syms2 sink st1 n
    end.
Proof.
  revert st acc. induction syms1 as [|a syms1 IH]; intros st acc; simpl.
  - reflexivity.
  - destruct (flush_symbol to_csv_row a (sink a) st) as [st1|[st1 n]];
      [reflexivity|apply IH].
Qed.

(** One successful flush, entry by entry. *)
Lemma flush_symbol_exact a st :
  has_keys a st ->
  exists st1 n,
    flush_symbol to_csv_row a Succeeds st = inr (st1, n)
    /\ forall s,
         data_buffers st1 !! s
         = (if decide (s = a) then Some [] else data_buffers st !! s)
         /\ csv_files st1 !! s
            = (if decide (s = a)
               then Lifecycle.with_batch to_csv_row (buffered a st)
                      <$> csv_files st !! a
               else csv_files st !! s).
Proof.
  intros ([buf Hb] & _ & [batches Hf]). unfold flush_symbol, buffered.
  rewrite Hb, Hf. simpl. destruct buf as [|r buf].
  - exists st, 0. split; [reflexivity|]. intros s.
    case_decide; subst; rewrite ?Hb, ?Hf; simpl;
      unfold Lifecycle.with_batch; rewrite ?app_nil_r; auto.
  - eexists _, _. split; [reflexivity|]. intros s. simpl.
    case_decide; subst.
    + rewrite !lookup_insert_eq. auto.
    + rewrite !lookup_insert_ne by congruence. auto.
Qed.

(** The loop over symbols whose sink calls all succeed runs to its end:
    what it leaves, entry by entry. *)
Lemma save_loop_exact syms (sink : string -> sink_result) :
  forall st acc,
    (forall s, s ∈ syms -> sink s = Succeeds /\ has_keys s st) ->
    exists st' n,
      save_loop to_csv_row syms sink st acc = inr (st', n)
      /\ forall s,
           (s ∈ syms ->
            data_buffers st' !! s = Some []
            /\ csv_files st' !! s
               = Lifecycle.with_batch to_csv_row (buffered s st)
                   <$> csv_files st !! s)
           /\ (s ∉ syms ->
               data_buffers st' !! s = data_buffers st !! s
               /\ csv_files st' !! s = csv_files st !! s).
Proof.
  induction syms as [|a syms IH]; intros st acc Hk.
  - simpl. exists st, acc. split; [reflexivity|]. intros s. split.
    + intros Hin. inversion Hin.
    + auto.
  - simpl. destruct (Hk a ltac:(left)) as [Hoka Hka]. rewrite Hoka.
    destruct (flush_symbol_exact a st Hka) as (st1 & n & E & Hst1).
    rewrite E.
    assert (forall s, s ∈ syms -> sink s = Succeeds /\ has_keys s st1) as Hk1.
    { intros s Hin. destruct (Hk s ltac:(right; exact Hin)) as [Hs Hks].
      split; [exact Hs|].
      pose proof (flush_symbol_keys a s Succeeds st Hks) as Hkeys.
      rewrite E in Hkeys. exact Hkeys. }
    destruct (IH st1 (acc + n) Hk1) as (st' & n' & E' & Hst').
    exists st', n'. split; [exact E'|]. intros s.
    destruct (Hst' s) as [Hin' Hout']. destruct (Hst1 s) as [Hb1 Hf1].
    assert (s <> a -> buffered s st1 = buffered s st) as Hbuf.
    { intros Hne. unfold buffered. rewrite Hb1.
      rewrite decide_False by assumption. reflexivity. }
    assert (buffered a st1 = []) as Hbufa.
    { unfold buffered. destruct (Hst1 a) as [-> _].
      rewrite decide_True by reflexivity. reflexivity. }
    destruct (decide (s ∈ syms)) as [Hin|Hnin].
    + split; [|intros Hn; exfalso; apply Hn; right; exact Hin].
      intros _. destruct (Hin' Hin) as [-> ->]. split; [reflexivity|].
      rewrite Hf1. destruct (decide (s = a)) as [->|Hne].
      * rewrite Hbufa. destruct (csv_files st !! a); simpl; [|reflexivity].
        unfold Lifecycle.with_batch at 1. rewrite app_nil_r. reflexivity.
      * rewrite Hbuf by assumption. reflexivity.
    + destruct (Hout' Hnin) as [-> ->]. rewrite Hb1, Hf1. split.
      * intros [->|Hin]%elem_of_cons; [|contradiction].
        rewrite !decide_True by reflexivity. auto.
      * intros [Hne _]%not_elem_of_cons.
        rewrite !decide_False by assumption. auto.
Qed.

Lemma persisted_with_batch s st st' :
  is_Some (csv_files st !! s) ->
  csv_files st' !! s
  = Lifecycle.with_batch to_csv_row (buffered s st) <$> csv_files st !! s ->
  persisted s st' = persisted s st ++ map to_csv_row (buffered s st).
Proof.
  intros [batches Hf] E. unfold persisted. rewrite E, Hf. simpl.
  unfold Lifecycle.with_batch. rewrite concat_app.
  destruct (buffered s st); simpl; rewrite ?app_nil_r; reflexivity.
Qed.

(** A save whose sink calls all succeed runs to its end: what it leaves
    for the configured symbols and for the clock. *)
Lemma save_all_ok st (now : Z) (sink : string -> sink_result) :
  (forall s, s ∈ symbols st -> sink s = Succeeds /\ has_keys s st) ->
  let st' := save_data_to_csv to_csv_row now sink st in
  (forall s, s ∈ symbols st ->
     buffered s st' = []
     /\ persisted s st' = persisted s st ++ map to_csv_row (buffered s st))
  /\ total st' = total st /\ symbols st' = symbols st
  /\ save_interval st' = save_interval st /\ last_save_time st' = now.
Proof.
  intros Hk. cbv zeta. unfold save_data_to_csv.
  destruct (save_loop_exact (symbols st) sink st 0 Hk)
    as (st1 & n & E & Hst1).
  pose proof (save_loop_frame (symbols st) sink st 0) as Hfr.
  rewrite E in *. simpl in Hfr. destruct Hfr as (Hsym & _ & Hint & Htot).
  simpl. split; [|auto].
  intros s Hin. destruct (Hst1 s) as [[Hb Hf] _]; [exact Hin|]. split.
  - unfold buffered. simpl. rewrite Hb. reflexivity.
  - apply (persisted_with_batch s st (set_last_save_time st1 now));
      [apply (Hk s Hin)|exact Hf].
Qed.

(** A save that meets, after symbols whose sink calls succeed, a symbol
    with a non-empty buffer whose sink call raises: the loop is left
    there, with the symbols before it flushed, the first rows of the
    failing batch in its file, and everything else as it was. *)
Lemma save_raising st (now : Z) (sink : string -> sink_result)
    (before after : list string) s written :
  symbols st = before ++ s :: after ->
  (forall s', s' ∈ before -> sink s' = Succeeds /\ has_keys s' st) ->
  has_keys s st -> sink s = Raises written -> buffered s st <> [] ->
  let st' := save_data_to_csv to_csv_row now sink st in
  (forall s', s' ∈ before ->
     buffered s' st' = []
     /\ persisted s' st' = persisted s' st ++ map to_csv_row (buffered s' st))
  /\ (forall s', s' ∉ before ->
        data_buffers st' !! s' = data_buffers st !! s')
  /\ (forall s', s' ∉ before -> s' <> s ->
        csv_files st' !! s' = csv_files st !! s')
  /\ persisted s st'
     = persisted s st ++ take written (map to_csv_row (buffered s st))
  /\ last_save_time st' = last_save_time st /\ total st' = total st
  /\ symbols st' = symbols st /\ save_interval st' = save_interval st.
Proof.
  intros Hsym Hk Hks Hfail Hne. cbv zeta. unfold save_data_to_csv.
  assert (s ∉ before) as Hnin.
  { intros Hin. destruct (Hk s Hin) as [Hok _]. congruence. }
  rewrite Hsym, save_loop_app.
  destruct (save_loop_exact before sink st 0 Hk) as (st1 & n & E & Hst1).
  pose proof (save_loop_frame before sink st 0) as Hfr.
  pose proof (save_loop_keys s before sink st 0 Hks) as Hks1.
  rewrite E in *. simpl in Hfr, Hks1.
  destruct Hfr as (Hsy & Hlast & Hint & Htot).
  simpl. rewrite Hfail.
  destruct (Hst1 s) as [_ [Hbs Hfs]]; [exact Hnin|].
  assert (buffered s st1 = buffered s st) as Hbuf.
  { unfold buffered. rewrite Hbs. reflexivity. }
  assert (persisted s st1 = persisted s st) as Hper.
  { unfold persisted. rewrite Hfs. reflexivity. }
  destruct (flush_symbol_raises_inl s written st1) as (st2 & E2);
    [rewrite Hbuf; exact Hne|].
  pose proof (flush_symbol_effect s (Raises written) st1 Hks1) as [_ Hp2].
  pose proof (flush_symbol_raises s written st1) as Hb2.
  pose proof (flush_symbol_frame s (Raises written) st1) as Hf2.
  rewrite E2 in *. simpl in Hp2, Hb2, Hf2.
  destruct Hf2 as (Hsy2 & Hlast2 & Hint2 & Htot2).
  split; [|split; [|split; [|split]]].
  - intros s' Hin. destruct (Hst1 s') as [[Hb Hf] _]; [exact Hin|].
    assert (s' <> s) as Hns by (intros ->; contradiction).
    pose proof (flush_symbol_other s s' (Raises written) st1
                  ltac:(congruence)) as (_ & _ & Hb' & Hp' & _).
    rewrite E2 in Hb', Hp'. simpl in Hb', Hp'. rewrite Hb', Hp'. split.
    + unfold buffered. rewrite Hb. reflexivity.
    + apply persisted_with_batch; [apply (Hk s' Hin)|exact Hf].
  - intros s' Hn. rewrite Hb2. destruct (Hst1 s') as [_ Hout].
    apply Hout, Hn.
  - intros s' Hn Hns.
    pose proof (flush_symbol_other s s' (Raises written) st1
                  ltac:(congruence)) as (_ & Hf' & _).
    rewrite E2 in Hf'. simpl in Hf'. rewrite Hf'.
    destruct (Hst1 s') as [_ Hout]. apply Hout, Hn.
  - rewrite Hp2, Hper, Hbuf. reflexivity.
  - rewrite Hlast2, Htot2, Hsy2, Hint2, Hsy, Hsym. auto.
Qed.

Lemma flush_symbol_ok_inr s st :
  has_keys s st ->
  exists st' n, flush_symbol to_csv_row s Succeeds st = inr (st', n).
Proof.
  intros ([buf Hb] & _ & [batches Hf]). unfold flush_symbol.
  rewrite Hb, Hf. destruct buf; eauto.
Qed.

Lemma sum_buffers_nonneg st (syms : list string) :
  0 <= foldr Z.add 0
         (map (fun s0 => Z.of_nat (length (default [] (data_buffers st !! s0))))
              syms).
Proof. induction syms; simpl; lia. Qed.

Lemma total_buffered_pos s st :
  s ∈ symbols st -> buffered s st <> [] -> total_buffered st > 0.
Proof.
  unfold total_buffered, buffered.
  generalize (symbols st) as syms.
  induction syms as [|a syms IH]; intros Hin Hne.
  - inversion Hin.
  - simpl. pose proof (sum_buffers_nonneg st syms) as Hnn.
    apply elem_of_cons in Hin as [->|Hin].
    + destruct (default [] (data_buffers st !! a)); [congruence|].
      simpl length. lia.
    + specialize (IH Hin Hne). lia.
Qed.

Lemma total_buffered_zero st :
  total_buffered st = 0 <-> forall s, s ∈ symbols st -> buffered s st = [].
Proof.
  unfold total_buffered, buffered. generalize (symbols st) as syms.
  induction syms as [|a syms IH]; simpl.
  - split; [intros _ s Hin; inversion Hin|reflexivity].
  - pose proof (sum_buffers_nonneg st syms) as Hnn. split.
    + intros Hz s [->|Hin]%elem_of_cons.
      * destruct (default [] (data_buffers st !! a)); [reflexivity|].
        simpl length in Hz. lia.
      * apply IH; [lia|exact Hin].
    + intros Hall. rewrite (Hall a) by left. simpl.
      apply IH. intros s Hin. apply Hall. right. exact Hin.
Qed.

Lemma total_buffered_some st :
  total_buffered st > 0 -> exists s, s ∈ symbols st /\ buffered s st <> [].
Proof.
  unfold total_buffered, buffered. generalize (symbols st) as syms.
  induction syms as [|a syms IH]; simpl; [lia|]. intros Hpos.
  destruct (default [] (data_buffers st !! a)) as [|r buf] eqn:E.
  - destruct IH as (s & Hin & Hne); [simpl in Hpos; lia|].
    exists s. split; [right; exact Hin|exact Hne].
  - exists a. split; [left|]. rewrite E. discriminate.
Qed.
End StoreFacts.
End StoreFacts.

(** ** The trade streamer: ingest as steps, routing *)
Module MultiFacts.
Import Env Store StoreFacts Multi.

Section MultiFacts.
Context `{Externals}.
Implicit Types (st : MEXCMultiStreamer) (t : trade) (s symbol : string).

Lemma process_trades_rows symbol trades st :
  process_trades symbol trades st
  = append_rows symbol (omap make_row trades) st.
Proof.
  unfold process_trades, append_rows. revert st.
  induction trades as [|t trades IH]; intros st; simpl; [reflexivity|].
  rewrite IH. unfold _process_trade.
  destruct (make_row t); reflexivity.
Qed.

Lemma on_message_steps clock message st :
  _on_message clock message st
  = run to_csv_row st (message_steps clock message st).
Proof.
  unfold _on_message, message_steps, run.
  generalize (group_by_symbol (symbols st)
                (_parse_protobuf_message clock message)) as groups.
  intros groups. revert st.
  induction groups as [|[symbol symbol_trades] groups IH]; intros st;
    simpl; [reflexivity|].
  rewrite IH, process_trades_rows. reflexivity.
Qed.

(** Every trade of a message carries the symbol of the wrapper. *)
Lemma parse_deal_symbol now wrapper message_symbol deal t :
  parse_deal now wrapper message_symbol deal = Some t ->
  t_symbol t = message_symbol.
Proof.
  unfold parse_deal.
  destruct (float_of_str (Env.price deal)); [|discriminate].
  destruct (float_of_str (Env.quantity deal)); [|discriminate].
  destruct (basic_validation _ _); [|discriminate].
  intros [= <-]. reflexivity.
Qed.

Lemma parse_message_symbols clock message wrapper :
  wrapper_of_bytes message = Some wrapper ->
  Forall (fun t => t_symbol t = symbol wrapper)
         (_parse_protobuf_message clock message).
Proof.
  intros E. unfold _parse_protobuf_message. rewrite E.
  destruct (decide (symbol wrapper = "")); [constructor|].
  destruct (publicAggreDeals wrapper) as [deals|]; [|constructor].
  apply Forall_forall. intros t Hin.
  apply list_elem_of_omap in Hin as (o & Ho & Hid). simpl in Hid. subst o.
  apply elem_of_lookup_imap in Ho as (i & deal & Hd & _).
  symmetry in Hd. eapply parse_deal_symbol, Hd.
Qed.

Lemma parse_message_no_symbol clock message wrapper :
  wrapper_of_bytes message = Some wrapper -> symbol wrapper = "" ->
  _parse_protobuf_message clock message = [].
Proof.
  intros E Hs. unfold _parse_protobuf_message. rewrite E.
  destruct (decide (symbol wrapper = "")); [reflexivity|contradiction].
Qed.

(** Trades that all carry one symbol make at most one group. *)
Lemma group_one_symbol syms symbol trades :
  Forall (fun t => t_symbol t = symbol) trades ->
  group_by_symbol syms trades
  = if negb (bool_decide (symbol = "")) && bool_decide (symbol ∈ syms)
    then match trades with [] => [] | _ => [(symbol, trades)] end
    else [].
Proof.
  unfold group_by_symbol.
  induction trades as [|t trades IH] using rev_ind; intros Hall.
  - simpl. destruct (_ && _); reflexivity.
  - apply Forall_app in Hall as [Hall Ht].
    apply Forall_inv in Ht. simpl in Ht.
    rewrite foldl_app, IH by assumption. simpl. rewrite Ht.
    destruct (negb (bool_decide (symbol = "")) && bool_decide (symbol ∈ syms));
      [|destruct (trades ++ [t]); reflexivity].
    destruct trades as [|t0 trades]; simpl; [reflexivity|].
    destruct (decide (symbol = symbol)); [reflexivity|contradiction].
Qed.
End MultiFacts.
End MultiFacts.

(** ** The book-ticker streamer *)
Module TickerFacts.
Import Env Store StoreFacts Ticker.

Section TickerFacts.
Context `{Externals}.

Lemma ticker_of_symbol wrapper bp bq ap aq t :
  ticker_of wrapper bp bq ap aq = Some t -> t_symbol t = symbol wrapper.
Proof.
  unfold ticker_of. destruct (validate bp bq ap aq); [|discriminate].
  intros [= <-]. reflexivity.
Qed.

Lemma parse_ticker_symbol message wrapper t :
  wrapper_of_bytes message = Some wrapper ->
  _parse_protobuf_message message = Some t ->
  t_symbol t = symbol wrapper.
Proof.
  intros E. unfold _parse_protobuf_message. rewrite E.
  destruct (publicAggreBookTicker wrapper) as [b|]; [|discriminate].
  destruct (float_or_zero (bidPrice b)); [|discriminate].
  destruct (float_or_zero (bidQuantity b)); [|discriminate].
  destruct (float_or_zero (askPrice b)); [|discriminate].
  destruct (float_or_zero (askQuantity b)); [|discriminate].
  apply ticker_of_symbol.
Qed.
End TickerFacts.
End TickerFacts.

(** ** Claims about the streamers *)
Module StreamerClaims.
Import Env Store StoreFacts.

Section Buffers.
Context `{Externals}.


(** C7, as the code has it.  The lifetime counter of an instrument never
    decreases, whatever the step (append, drain, end of a save,
    statistics read), and after every step it is the number of rows
    appended so far: the rows drained from the buffer plus the rows in
    it.  That is the number of rows in the instrument's file plus the
    number of rows buffered as long as no sink call raised after part of
    its batch had reached the file; it is never more than that sum. *)
Theorem lifetime_counter (syms : list string) (now interval : Z)
    (steps : list (step Multi.data_row)) (x : step Multi.data_row)
    (s : string) :
  s ∈ map upper syms ->
  let st0 := Multi.__init__ syms now interval in
  let st := run Multi.to_csv_row st0 steps in
  counter s st = Z.of_nat (length (appended s steps))
  /\ counter s st
     = Z.of_nat (length (drained Multi.to_csv_row s st0 steps))
       + Z.of_nat (length (buffered s st))
  /\ (Forall writes_nothing_on_failure steps ->
      counter s st
      = Z.of_nat (length (persisted s st)) + Z.of_nat (length (buffered s st)))
  /\ counter s st
     <= Z.of_nat (length (persisted s st)) + Z.of_nat (length (buffered s st))
  /\ counter s st <= counter s (run_step Multi.to_csv_row st x)
  /\ (forall st1 : Multi.MEXCMultiStreamer,
        counter s st1 <= counter s (run_step Multi.to_csv_row st1 x)).
Proof.
  intros Hin. cbv zeta. unfold Multi.__init__.
  destruct (init_state (row := Multi.data_row) (map upper syms) now interval
              s Hin) as (Hk & Hb & Hp & Hc).
  destruct (run_effect Multi.to_csv_row s steps _ Hk)
    as (_ & E & Ec & w & Ew & Hsub & Hclean).
  rewrite Hb in E. rewrite Hp in Ew. rewrite Hc in Ec. simpl in E, Ew.
  assert (Z.of_nat (length (appended s steps))
          = Z.of_nat (length (drained Multi.to_csv_row s
                                (init (map upper syms) now interval) steps))
            + Z.of_nat (length (buffered s
                 (run Multi.to_csv_row (init (map upper syms) now interval)
                      steps)))) as Elen.
  { rewrite <- E, length_app. lia. }
  split; [lia|]. split; [lia|].
  split; [|split; [|split; intros; apply run_step_counter_le]].
  - intros Hall. rewrite Ew, (Hclean Hall), length_map. lia.
  - apply sublist_length in Hsub. rewrite length_map in Hsub.
    rewrite Ew. lia.
Qed.
End Buffers.

Section Flush.
Context {row : Type} (to_csv_row : row -> csv_row).

(** C8, as the code has it ([save_data_to_csv] is the same in both
    streamers).  When the sink call for a symbol's batch raises, the
    save catches the exception and stops: the batch is still in the
    symbol's live buffer, the rows of it that had reached the file
    before the exception are in the file, and [last_save_time] is not
    moved.  Rows appended later join the same buffer behind the batch.
    Because [last_save_time] did not move, the next wake-up of the
    auto-save thread saves again; and a save whose sink calls succeed
    writes the retained rows and the later ones as one batch and empties
    the buffer.  So no row is lost, and a row is in the file twice
    exactly when the call that raised had written it: none is, when it
    raised before writing. *)
Theorem failed_flush_stays_in_live_buffer (st : streamer row) (now : Z)
    (sink : string -> sink_result) (before after : list string)
    (s : string) (written : nat) (rows : list row) :
  symbols st = before ++ s :: after ->
  (forall s', s' ∈ before -> sink s' = Succeeds) ->
  (forall s', s' ∈ symbols st -> has_keys s' st) ->
  buffered s st <> [] -> sink s = Raises written ->
  let st' := save_data_to_csv to_csv_row now sink st in
  let st_later := append_rows s rows st' in
  buffered s st' = buffered s st
  /\ persisted s st'
     = persisted s st ++ take written (map to_csv_row (buffered s st))
  /\ last_save_time st' = last_save_time st
  /\ buffered s st_later = buffered s st ++ rows
  /\ (forall now' now_saved sink',
        should_save_data now st = true -> now <= now' ->
        auto_save_tick to_csv_row now' now_saved sink' st_later
        = save_data_to_csv to_csv_row now_saved sink' st_later)
  /\ (forall now' sink',
        (forall s', sink' s' = Succeeds) ->
        let st'' := save_data_to_csv to_csv_row now' sink' st_later in
        buffered s st'' = []
        /\ persisted s st''
           = persisted s st
             ++ take written (map to_csv_row (buffered s st))
             ++ map to_csv_row (buffered s st ++ rows)).
Proof.
  intros Hsym Hbefore Hkeys Hne Hfail. cbv zeta.
  assert (s ∈ symbols st) as Hin.
  { rewrite Hsym. apply elem_of_app. right. left. }
  assert (forall s', s' ∈ before -> sink s' = Succeeds /\ has_keys s' st)
    as Hk.
  { intros s' Hs'. split; [apply Hbefore, Hs'|].
    apply Hkeys. rewrite Hsym. apply elem_of_app. left. exact Hs'. }
  (* the save that raises *)
  destruct (save_raising to_csv_row st now sink before after s written
              Hsym Hk (Hkeys s Hin) Hfail Hne)
    as (_ & Hbufs & _ & Hp1 & Hlast1 & _ & Hsym1 & Hint1).
  set (st1 := save_data_to_csv to_csv_row now sink st) in *.
  assert (s ∉ before) as Hnin.
  { intros Hs. rewrite (Hbefore s Hs) in Hfail. discriminate. }
  assert (buffered s st1 = buffered s st) as Hb1.
  { unfold buffered. rewrite (Hbufs s Hnin). reflexivity. }
  assert (forall s', s' ∈ symbols st -> has_keys s' st1) as Hkeys1.
  { intros s' Hs'.
    destruct (save_data_to_csv_steps to_csv_row now sink st)
      as (steps & Erun & _).
    unfold st1. rewrite Erun.
    apply (run_effect to_csv_row s' steps st (Hkeys s' Hs')). }
  (* the later appends *)
  destruct (append_rows_same s rows st1 (Hkeys1 s Hin)) as (Hb2 & Hp2 & _).
  destruct (append_rows_frame s rows st1) as (Hsym2 & Hlast2 & Hint2).
  rewrite Hb1 in Hb2. rewrite Hp1 in Hp2.
  split; [exact Hb1|]. split; [exact Hp1|]. split; [exact Hlast1|].
  split; [exact Hb2|]. split.
  - (* the next wake-up saves again *)
    intros now' now_saved sink' Hdue Hlater. unfold auto_save_tick.
    assert (should_save_data now' (append_rows s rows st1) = true) as ->.
    { unfold should_save_data in *. rewrite Hlast2, Hint2, Hlast1, Hint1.
      apply Z.geb_le. apply Z.geb_le in Hdue. lia. }
    assert (total_buffered (append_rows s rows st1) > 0) as Hpos.
    { apply (total_buffered_pos s).
      - rewrite Hsym2, Hsym1. exact Hin.
      - rewrite Hb2. destruct (buffered s st); [congruence|discriminate]. }
    destruct (Z.gtb_spec (total_buffered (append_rows s rows st1)) 0);
      [reflexivity|lia].
  - (* a successful save *)
    intros now' sink' Hok.
    assert (forall s', s' ∈ symbols (append_rows s rows st1) ->
              sink' s' = Succeeds /\ has_keys s' (append_rows s rows st1))
      as Hkeys2.
    { intros s' Hs'. rewrite Hsym2, Hsym1 in Hs'.
      split; [apply Hok|]. apply append_rows_keys, Hkeys1, Hs'. }
    destruct (save_all_ok to_csv_row (append_rows s rows st1) now' sink'
                Hkeys2) as (Hall & _).
    destruct (Hall s) as [Hb3 Hp3]; [rewrite Hsym2, Hsym1; exact Hin|].
    split; [exact Hb3|]. rewrite Hp3, Hp2, Hb2, <- app_assoc. reflexivity.
Qed.
End Flush.

Section Ingest.
Context `{Externals}.



(** C6, as the code has it.  Routing compares the decoded symbol as it
    is with the configured symbols (only those are upper-cased, at
    start-up).  A frame whose symbol is empty or not among them changes
    nothing: its records are dropped, no counter exists and no error is
    raised.  Otherwise the rows of its records are appended to that
    symbol's buffer, in order, a record whose time stamp has no
    [datetime] being dropped; and in every case the buffer of any other
    symbol is left as it was.  This holds in both streamers. *)
Theorem routing_by_exact_symbol (message : list Z)
    (wrapper : PushDataV3ApiWrapper) :
  wrapper_of_bytes message = Some wrapper ->
  (forall clock (st : Multi.MEXCMultiStreamer),
      let st' := Multi._on_message clock message st in
      let rows :=
        omap Multi.make_row (Multi._parse_protobuf_message clock message) in
      (symbol wrapper = "" \/ symbol wrapper ∉ symbols st -> st' = st)
      /\ (symbol wrapper <> "" -> symbol wrapper ∈ symbols st ->
          has_keys (symbol wrapper) st ->
          buffered (symbol wrapper) st' = buffered (symbol wrapper) st ++ rows)
      /\ (forall s, s <> symbol wrapper -> buffered s st' = buffered s st))
  /\ (forall now_str (st : Ticker.MEXCBookTickerStreamer),
        let st' := Ticker._on_message now_str message st in
        let rows :=
          match Ticker._parse_protobuf_message message with
          | Some t => option_list (Ticker.make_row now_str t (symbol wrapper))
          | None => []
          end in
        (symbol wrapper = "" \/ symbol wrapper ∉ symbols st -> st' = st)
        /\ (symbol wrapper <> "" -> symbol wrapper ∈ symbols st ->
            has_keys (symbol wrapper) st ->
            buffered (symbol wrapper) st' = buffered (symbol wrapper) st ++ rows)
        /\ (forall s, s <> symbol wrapper -> buffered s st' = buffered s st)).
Proof.
  intros Ew. split.
  - intros clock st. cbv zeta.
    pose proof (MultiFacts.parse_message_symbols clock message wrapper Ew)
      as Hall.
    rewrite MultiFacts.on_message_steps. unfold Multi.message_steps.
    rewrite (MultiFacts.group_one_symbol _ _ _ Hall).
    split; [|split].
    + intros [He|Hnot].
      * rewrite bool_decide_eq_true_2 by assumption. reflexivity.
      * rewrite (bool_decide_eq_false_2 _ Hnot), andb_false_r. reflexivity.
    + intros Hne Hin Hk.
      rewrite bool_decide_eq_false_2, bool_decide_eq_true_2 by assumption.
      simpl.
      destruct (Multi._parse_protobuf_message clock message) as [|t ts];
        simpl; [rewrite app_nil_r; reflexivity|].
      apply (append_rows_same (symbol wrapper) _ st Hk).
    + intros s Hs.
      destruct (negb _ && _); [|reflexivity].
      destruct (Multi._parse_protobuf_message clock message) as [|t ts];
        simpl; [reflexivity|].
      apply (append_rows_other (symbol wrapper) s _ st). congruence.
  - intros now_str st. cbv zeta. unfold Ticker._on_message.
    destruct (Ticker._parse_protobuf_message message) as [t|] eqn:Et;
      [|split; [|split]; intros; rewrite ?app_nil_r; reflexivity].
    rewrite (TickerFacts.parse_ticker_symbol message wrapper t Ew Et).
    unfold Ticker._process_ticker_data.
    split; [|split].
    + intros [He|Hnot].
      * rewrite bool_decide_eq_true_2 by assumption. reflexivity.
      * rewrite (bool_decide_eq_false_2 _ Hnot), andb_false_r. reflexivity.
    + intros Hne Hin Hk.
      rewrite bool_decide_eq_false_2, bool_decide_eq_true_2 by assumption.
      simpl.
      destruct (Ticker.make_row now_str t (symbol wrapper)) as [r|]; simpl;
        [|rewrite app_nil_r; reflexivity].
      apply (append_row_same (symbol wrapper) r st Hk).
    + intros s Hs.
      destruct (negb _ && _); [|reflexivity].
      destruct (Ticker.make_row now_str t (symbol wrapper)) as [r|];
        [|reflexivity].
      apply (append_row_other (symbol wrapper) s r st). congruence.
Qed.
End Ingest.

(** C5, as the code has it.  A snapshot gives a record exactly when bid
    price, bid quantity, ask price and ask quantity are all strictly
    positive, and the record carries [spread = ask - bid] and
    [spread_percent = spread / bid * 100].  The spread defaults to 0.0
    unless both prices are strictly positive, and the spread percent
    defaults to 0.0 unless the bid price is: the quantities play no part
    in the defaults.  For bid 100.0 x 1.0 and ask 101.0 x 1.0 the record
    has spread 1.0 and spread percent 1.0. *)
Theorem ticker_validation (wrapper : PushDataV3ApiWrapper)
    (bid_price bid_quantity ask_price ask_quantity : float) :
  (is_Some (Ticker.ticker_of wrapper bid_price bid_quantity ask_price ask_quantity)
   <-> PrimFloat.ltb 0 bid_price = true /\ PrimFloat.ltb 0 bid_quantity = true
       /\ PrimFloat.ltb 0 ask_price = true /\ PrimFloat.ltb 0 ask_quantity = true)
  /\ (forall t,
        Ticker.ticker_of wrapper bid_price bid_quantity ask_price ask_quantity
        = Some t ->
        Ticker.t_spread t = PrimFloat.sub ask_price bid_price
        /\ Ticker.t_spread_percent t
           = PrimFloat.mul
               (PrimFloat.div (PrimFloat.sub ask_price bid_price) bid_price) 100)
  /\ (PrimFloat.ltb 0 ask_price = false \/ PrimFloat.ltb 0 bid_price = false ->
      Ticker.spread_of bid_price ask_price = 0%float)
  /\ (PrimFloat.ltb 0 bid_price = false ->
      Ticker.spread_percent_of (Ticker.spread_of bid_price ask_price) bid_price
      = 0%float)
  /\ Ticker.ticker_of wrapper 100 1 101 1
     = Some (Ticker.mkTickerData (symbol wrapper) 100 1 101 1 1 1
               (channel wrapper) (sendTime wrapper)).
Proof.
  unfold Ticker.ticker_of, Ticker.validate, Ticker.spread_of,
    Ticker.spread_percent_of.
  split; [|split; [|split; [|split; [|reflexivity]]]].
  - destruct (PrimFloat.ltb 0 bid_price), (PrimFloat.ltb 0 bid_quantity),
      (PrimFloat.ltb 0 ask_price), (PrimFloat.ltb 0 ask_quantity); simpl;
      split; try (intros [? [=]]); try (intros (? & ? & ? & ?); discriminate);
      eauto.
  - intros t.
    destruct (PrimFloat.ltb 0 bid_price), (PrimFloat.ltb 0 bid_quantity),
      (PrimFloat.ltb 0 ask_price), (PrimFloat.ltb 0 ask_quantity); simpl;
      try discriminate.
    intros [= <-]. auto.
  - intros [-> | ->]; [reflexivity|]. rewrite andb_false_r. reflexivity.
  - intros ->. reflexivity.
Qed.

(** *** The claims on the sample inputs *)


(** On the sample steps: four rows are drained and two are buffered, and
    the file holds five, the first row twice. *)
Example sample_steps_drained :
  drained Multi.to_csv_row "BTCUSDT"
    (Multi.__init__ ["btcusdt"; "ethusdt"] 0 60000) Demo.steps
  = [Demo.row "BTCUSDT" 1; Demo.row "BTCUSDT" 2; Demo.row "BTCUSDT" 4]
  /\ buffered "BTCUSDT"
       (run Multi.to_csv_row (Multi.__init__ ["btcusdt"; "ethusdt"] 0 60000)
            Demo.steps)
     = [Demo.row "BTCUSDT" 5; Demo.row "BTCUSDT" 6]
  /\ persisted "BTCUSDT"
       (run Multi.to_csv_row (Multi.__init__ ["btcusdt"; "ethusdt"] 0 60000)
            Demo.steps)
     = map Multi.to_csv_row
         [Demo.row "BTCUSDT" 1; Demo.row "BTCUSDT" 1; Demo.row "BTCUSDT" 2;
          Demo.row "BTCUSDT" 4]
  /\ persisted "BTCUSDT"
       (run Multi.to_csv_row (Multi.__init__ ["btcusdt"; "ethusdt"] 0 60000)
            Demo.clean_steps)
     = map Multi.to_csv_row
         [Demo.row "BTCUSDT" 1; Demo.row "BTCUSDT" 2; Demo.row "BTCUSDT" 4].
Proof. vm_compute. repeat split. Qed.

Lemma lifetime_counter_witness :
  counter "BTCUSDT"
    (run Multi.to_csv_row (Multi.__init__ ["btcusdt"; "ethusdt"] 0 60000)
         Demo.steps)
  = Z.of_nat (length (appended "BTCUSDT" Demo.steps)).
Proof.
  refine (proj1 (lifetime_counter ["btcusdt"; "ethusdt"] 0 60000 Demo.steps
                   ReadStatistics "BTCUSDT" _)).
  vm_compute. apply list_elem_of_here.
Defined.

(** C7 as stated fails: after a sink call that raised when one row of a
    batch of two had reached the file, the counter is 2 while the file
    holds one row and the buffer two. *)
Lemma counter_behind_file_after_torn_write :
  counter "BTCUSDT"
    (run Multi.to_csv_row (Multi.__init__ ["btcusdt"; "ethusdt"] 0 60000)
         (take 2 Demo.steps)) = 2
  /\ length (persisted "BTCUSDT"
       (run Multi.to_csv_row (Multi.__init__ ["btcusdt"; "ethusdt"] 0 60000)
            (take 2 Demo.steps))) = 1%nat
  /\ length (buffered "BTCUSDT"
       (run Multi.to_csv_row (Multi.__init__ ["btcusdt"; "ethusdt"] 0 60000)
            (take 2 Demo.steps))) = 2%nat.
Proof. vm_compute. repeat split. Qed.

Lemma failed_flush_stays_in_live_buffer_witness :
  persisted "BTCUSDT"
    (save_data_to_csv Multi.to_csv_row 120000 Demo.sink_up
       (append_rows "BTCUSDT" [Demo.row "BTCUSDT" 4]
          (save_data_to_csv Multi.to_csv_row 60000 Demo.sink_torn
                            Demo.three_buffered)))
  = persisted "BTCUSDT" Demo.three_buffered
    ++ take 1 (map Multi.to_csv_row (buffered "BTCUSDT" Demo.three_buffered))
    ++ map Multi.to_csv_row
         (buffered "BTCUSDT" Demo.three_buffered ++ [Demo.row "BTCUSDT" 4]).
Proof.
  refine (proj2 (proj2 (proj2 (proj2 (proj2 (proj2
            (failed_flush_stays_in_live_buffer Multi.to_csv_row
               Demo.three_buffered 60000 Demo.sink_torn [] ["ETHUSDT"]
               "BTCUSDT" 1 [Demo.row "BTCUSDT" 4] _ _ _ _ _)))))
            120000 Demo.sink_up _)).
  - reflexivity.
  - intros s' Hs'. inversion Hs'.
  - intros s' Hs'. vm_compute in Hs'.
    apply elem_of_cons in Hs' as [->|Hs'];
      [|apply list_elem_of_singleton in Hs' as ->];
      (split; [|split]); vm_compute; eauto.
  - vm_compute. discriminate.
  - reflexivity.
  - reflexivity.
Defined.

(** C8 as stated fails.  The batch of a failed flush is not held apart:
    after a save whose sink is down, a row appended next sits in the same
    live buffer, behind the retained one.  And a row can be persisted
    twice: when the sink call raises after one row of a batch of three
    has reached the file, the retry leaves four rows in the file, the
    first one twice. *)
Lemma failed_batch_merged_with_live_buffer :
  buffered "BTCUSDT"
    (append_row "BTCUSDT" (Demo.row "BTCUSDT" 2)
       (Multi.save_data_to_csv 60000 Demo.sink_down Demo.one_buffered))
  = [Demo.row "BTCUSDT" 1; Demo.row "BTCUSDT" 2]
  /\ persisted "BTCUSDT"
       (Multi.save_data_to_csv 60000 Demo.sink_down Demo.one_buffered) = []
  /\ persisted "BTCUSDT"
       (Multi.save_data_to_csv 120000 Demo.sink_up
          (Multi.save_data_to_csv 60000 Demo.sink_torn Demo.three_buffered))
     = map Multi.to_csv_row
         [Demo.row "BTCUSDT" 1; Demo.row "BTCUSDT" 1; Demo.row "BTCUSDT" 2;
          Demo.row "BTCUSDT" 3].
Proof. vm_compute. repeat split. Qed.



Lemma routing_by_exact_symbol_witness :
  buffered "BTCUSDT"
    (@Multi._on_message Demo.externals Demo.clock [1]
       (Multi.__init__ ["btcusdt"; "ethusdt"] 0 60000))
  = buffered "BTCUSDT" (Multi.__init__ ["btcusdt"; "ethusdt"] 0 60000)
    ++ omap (@Multi.make_row Demo.externals)
         (@Multi._parse_protobuf_message Demo.externals Demo.clock [1]).
Proof.
  refine (proj1 (proj2 (proj1
            (@routing_by_exact_symbol Demo.externals [1] Demo.deals_wrapper _)
            Demo.clock (Multi.__init__ ["btcusdt"; "ethusdt"] 0 60000)))
            _ _ _).
  - reflexivity.
  - vm_compute. discriminate.
  - vm_compute. apply list_elem_of_here.
  - (split; [|split]); vm_compute; eauto.
Defined.

(** C6 as stated fails: the decoded symbol is not upper-cased.  A frame
    for "btcusdt" carries a valid trade and a valid ticker, its upper-cased
    symbol is configured, and yet both streamers drop the record. *)
Lemma lowercase_symbol_is_dropped :
  upper "btcusdt" = "BTCUSDT"
  /\ length (@Multi._parse_protobuf_message Demo.externals Demo.clock [2])
     = 1%nat
  /\ buffered "BTCUSDT"
       (@Multi._on_message Demo.externals Demo.clock [2]
          (Multi.__init__ ["btcusdt"] 0 60000)) = []
  /\ is_Some (@Ticker._parse_protobuf_message Demo.externals [2])
  /\ buffered "BTCUSDT"
       (@Ticker._on_message Demo.externals "2023-11-14 22:13:20.000" [2]
          (Ticker.__init__ ["btcusdt"] 0 60000)) = [].
Proof. vm_compute. repeat split; eauto. Qed.

Lemma ticker_validation_witness :
  Ticker.ticker_of Demo.ticker_wrapper 100 1 101 1
  = Some (Ticker.mkTickerData "ETHUSDT" 100 1 101 1 1 1
            "spot@public.aggre.bookTicker.v3.api.pb@100ms@ETHUSDT"
            1700000000000).
Proof.
  exact (proj2 (proj2 (proj2 (proj2
           (ticker_validation Demo.ticker_wrapper 100 1 101 1))))).
Defined.

(** C5 as stated fails: with a bid quantity of 0 the positivity of the
    four values fails and no record is produced, yet the spread and the
    spread percent computed are 1.0 and 1.0, not 0.0. *)
Lemma ticker_defaults_ignore_quantities :
  Ticker.validate 100 0 101 1 = false
  /\ Ticker.spread_of 100 101 = 1%float
  /\ Ticker.spread_percent_of (Ticker.spread_of 100 101) 100 = 1%float.
Proof. vm_compute. repeat split. Qed.

(** *** The sample frames through both streamers *)

(** Of the four deals of the sample frame, the two degenerate ones (price
    5.0 with quantity 5.0, price 5.0005 with quantity 5.0) are rejected; the
    second trade, whose time is 0, takes the clock reading. *)
Example sample_trades :
  map (fun t => (Multi.t_price t, Multi.t_trade_type t, Multi.t_timestamp t))
      (@Multi._parse_protobuf_message Demo.externals Demo.clock [1])
  = [(100%float, 1, 1700000000001); (101%float, 2, Demo.clock 1)].
Proof. vm_compute. reflexivity. Qed.

(** A frame of trades, then a save: two rows in the file of BTCUSDT, in the
    order of the frame, labelled BUY and SELL, and an empty buffer. *)
Example sample_trades_saved :
  let st := Multi.save_data_to_csv 60000 Demo.sink_up
              (@Multi._on_message Demo.externals Demo.clock [1]
                 (Multi.__init__ ["btcusdt"; "ethusdt"] 0 60000)) in
  map (fun r => nth 6 r (Str "")) (persisted "BTCUSDT" st) = [Str "BUY"; Str "SELL"]
  /\ buffered "BTCUSDT" st = [] /\ counter "BTCUSDT" st = 2
  /\ persisted "ETHUSDT" st = [] /\ last_save_time st = 60000.
Proof. vm_compute. repeat split. Qed.

(** A book-ticker frame for ETHUSDT: one row, with spread 1.0 and spread
    percent 1.0, in the buffer of ETHUSDT only. *)
Example sample_ticker_buffered :
  let st := @Ticker._on_message Demo.externals "2023-11-14 22:13:20.000" [3]
              (Ticker.__init__ ["btcusdt"; "ethusdt"] 0 60000) in
  map (fun r => (Ticker.r_spread r, Ticker.r_spread_percent r))
      (buffered "ETHUSDT" st) = [(1%float, 1%float)]
  /\ buffered "BTCUSDT" st = [] /\ counter "ETHUSDT" st = 1.
Proof. vm_compute. repeat split. Qed.

End StreamerClaims.

(** ** The decoder: more on varints, and frames with any payload *)
Module DecoderMore.
Import Pb2 Wire WireAny Pb2Facts WireFacts.

Lemma lor_lt_pow2 a b k :
  0 <= k -> 0 <= a < 2 ^ k -> 0 <= b < 2 ^ k -> 0 <= Z.lor a b < 2 ^ k.
Proof.
  intros Hk Ha Hb.
  assert (0 <= Z.lor a b) as Hnn by (apply Z.lor_nonneg; lia).
  split; [exact Hnn|].
  assert (0 < 2 ^ k) as Hp by (apply Z.pow_pos_nonneg; lia).
  assert (Z.lor a b / 2 ^ k = 0) as Hd.
  { rewrite <- Z.shiftr_div_pow2, Z.shiftr_lor, !Z.shiftr_div_pow2 by lia.
    rewrite (Z.div_small a), (Z.div_small b) by lia. reflexivity. }
  apply Z.div_small_iff in Hd; lia.
Qed.

Lemma read_varint_loop_value rest :
  forall pos result shift,
    0 <= shift -> 0 <= result < 2 ^ shift ->
    let r := read_varint_loop rest pos result shift in
    fst r < 2 ^ (shift + 7 * (snd r - pos)).
Proof.
  induction rest as [|byte rest IH]; intros pos result shift Hs Hr; simpl.
  - replace (shift + 7 * (pos - pos)) with shift by lia. lia.
  - pose proof (land_7F_range byte) as Hb.
    assert (0 <= Z.lor result (Z.shiftl (Z.land byte 127) shift)
            < 2 ^ (shift + 7)) as Hnew.
    { apply lor_lt_pow2; [lia| |].
      - split; [lia|]. apply Z.lt_le_trans with (2 ^ shift); [lia|].
        apply Z.pow_le_mono_r; lia.
      - rewrite Z.shiftl_mul_pow2 by lia. rewrite Z.pow_add_r by lia.
        assert (0 < 2 ^ shift) by (apply Z.pow_pos_nonneg; lia).
        change (2 ^ 7) with 128. nia. }
    destruct (Z.land byte 128 =? 0); simpl.
    + replace (shift + 7 * (pos + 1 - pos)) with (shift + 7) by lia. lia.
    + specialize (IH (pos + 1) _ (shift + 7) ltac:(lia) Hnew). simpl in IH.
      replace (shift + 7 * (snd (read_varint_loop rest (pos + 1)
                 (Z.lor result (Z.shiftl (Z.land byte 127) shift)) (shift + 7)) - pos))
        with (shift + 7 + 7 * (snd (read_varint_loop rest (pos + 1)
                 (Z.lor result (Z.shiftl (Z.land byte 127) shift)) (shift + 7))
                               - (pos + 1))) by lia.
      exact IH.
Qed.

(** X2.  [_read_varint] on any data, from any position: the value is never
    negative and fits in seven bits for each byte consumed; the position
    never moves backwards nor past the end of the data; at least one byte
    is consumed when one is left, and at or past the end the result is 0
    with the position unchanged. *)
Theorem read_varint_stays_in_data (data : list Z) (pos : Z) :
  0 <= pos ->
  0 <= fst (_read_varint data pos)
       < 2 ^ (7 * (snd (_read_varint data pos) - pos))
  /\ pos <= snd (_read_varint data pos) <= Z.max pos (len data)
  /\ (pos < len data -> pos + 1 <= snd (_read_varint data pos))
  /\ (len data <= pos -> _read_varint data pos = (0, pos)).
Proof.
  intros Hpos.
  destruct (read_varint_bounds data pos Hpos) as (Hnn & Hrange & Hadv).
  split; [split; [exact Hnn|]|split; [exact Hrange|split; [exact Hadv|]]].
  - pose proof (read_varint_loop_value (drop (Z.to_nat pos) data) pos 0 0
                  ltac:(lia) ltac:(simpl; lia)) as Hv.
    simpl in Hv. exact Hv.
  - intros Hend. unfold _read_varint.
    rewrite drop_ge by (unfold len in Hend; lia). reflexivity.
Qed.

Lemma read_varint_stays_in_data_witness :
  0 <= fst (_read_varint [0x0A; 0xAC; 0x02; 0x31] 1)
       < 2 ^ (7 * (snd (_read_varint [0x0A; 0xAC; 0x02; 0x31] 1) - 1)).
Proof.
  refine (proj1 (read_varint_stays_in_data [0x0A; 0xAC; 0x02; 0x31] 1 _)). lia.
Defined.

(** X1.  Varints round-trip at any offset: reading where a reference
    encoder wrote the non-negative integer [n], whatever precedes and
    follows, returns [n] and the position just after its bytes; and reading
    a field header where the key of field [num] with wire type
    [wire_type] was written returns that number and that wire type. *)
Theorem varint_roundtrip (pre rest : list Z) (n num wire_type : Z) :
  0 <= n -> 0 <= num -> 0 <= wire_type < 8 ->
  _read_varint (pre ++ encode_varint n ++ rest) (len pre)
  = (n, len pre + len (encode_varint n))
  /\ _read_field_header (pre ++ encode_varint (key num wire_type) ++ rest) (len pre)
     = (num, wire_type, len pre + len (encode_varint (key num wire_type))).
Proof.
  intros Hn Hnum Hw. split.
  - apply read_varint_at. exact Hn.
  - apply read_field_header_at; assumption.
Qed.

Lemma varint_roundtrip_witness :
  _read_varint ([7; 7] ++ encode_varint 300 ++ [9]) (len [7; 7])
  = (300, len [7; 7] + len (encode_varint 300)).
Proof.
  refine (proj1 (varint_roundtrip [7; 7] [9] 300 1 2 _ _ _)); lia.
Defined.

(** *** Frames with any payload *)
Lemma read_string_any pre payload rest :
  _read_string (pre ++ encode_varint (len payload) ++ payload ++ rest) (len pre)
  = (decoded payload, len pre + len (encode_varint (len payload)) + len payload).
Proof.
  unfold _read_string, decoded.
  rewrite read_varint_at by apply len_nonneg.
  rewrite <- len_app.
  assert ((len (pre ++ encode_varint (len payload)) + len payload >?
           len (pre ++ encode_varint (len payload) ++ payload ++ rest))
          = false) as ->.
  { rewrite Z.gtb_ltb. apply Z.ltb_ge. rewrite !len_app.
    pose proof (len_nonneg rest). lia. }
  rewrite (app_assoc pre), slice_at.
  destruct (Utf8.decode payload); reflexivity.
Qed.

Lemma unknown_numbers num :
  known num = false ->
  (num =? 1) = false /\ (num =? 2) = false /\ (num =? 3) = false
  /\ (num =? 4) = false.
Proof.
  unfold known. intros Hk.
  repeat split; apply Z.eqb_neq; intros ->; discriminate.
Qed.

Lemma parse_field_any pre f rest self :
  wellformed f = true ->
  parse_field (pre ++ encode_field f ++ rest) self (len pre)
  = (assign_any self f, len pre + len (encode_field f)).
Proof.
  destruct f as [num s|num v|num raw|num raw|num raw];
    try (intros Hv; apply parse_field_at; exact Hv).
  unfold wellformed. intros Hn%Z.leb_le.
  change (encode_field (BytesField num raw))
    with (encode_varint (key num 2) ++ encode_varint (len raw) ++ raw).
  rewrite <- !app_assoc.
  unfold parse_field. rewrite read_field_header_at by lia.
  destruct (known num) eqn:Hk.
  - pose proof (read_string_any (pre ++ encode_varint (key num 2)) raw rest)
      as Hstr.
    rewrite <- app_assoc, len_app in Hstr.
    rewrite Hstr, !len_app.
    destruct (known_cases num Hk) as [->|[->|[->| ->]]]; simpl; f_equal; lia.
  - destruct (unknown_numbers num Hk) as (E1 & E2 & E3 & E4).
    unfold assign_any, assign. rewrite E1, E2, E3, E4.
    rewrite <- len_app, (app_assoc pre), skip_bytes_at.
    rewrite !len_app. f_equal. lia.
Qed.

Lemma parse_loop_any fs :
  forallb wellformed fs = true ->
  forall pre self fuel,
    (length fs <= fuel)%nat ->
    parse_loop fuel (pre ++ encode_frame fs) self (len pre)
    = Some (foldl assign_any self fs).
Proof.
  unfold encode_frame.
  induction fs as [|f fs IH]; intros Hv pre self fuel Hfuel.
  - simpl. rewrite app_nil_r.
    destruct fuel; simpl; rewrite Z.ltb_irrefl; reflexivity.
  - simpl in Hv. apply andb_true_iff in Hv as [Hf Hfs].
    destruct fuel as [|fuel]; [simpl in Hfuel; lia|].
    cbn [map concat parse_loop foldl].
    assert ((len pre <? len (pre ++ encode_field f ++ concat (map encode_field fs)))
            = true) as ->.
    { apply Z.ltb_lt. rewrite !len_app.
      pose proof (encode_field_nonempty f).
      pose proof (len_nonneg (concat (map encode_field fs))).
      unfold len in *. lia. }
    rewrite parse_field_any by assumption.
    rewrite <- len_app, app_assoc.
    apply IH; [assumption|simpl in Hfuel; lia].
Qed.

Lemma parse_any fs self :
  forallb wellformed fs = true ->
  ParseFromString self (encode_frame fs) = Some (true, foldl assign_any self fs).
Proof.
  intros Hv. unfold ParseFromString.
  pose proof (parse_loop_any fs Hv [] self (length (encode_frame fs))
                (encode_frame_length fs)) as E.
  simpl in E. change (len []) with 0 in E. rewrite E. reflexivity.
Qed.

Lemma encode_frame_app fs1 fs2 :
  encode_frame (fs1 ++ fs2) = encode_frame fs1 ++ encode_frame fs2.
Proof. unfold encode_frame. rewrite map_app, concat_app. reflexivity. Qed.

(** X3.  A field of the schema whose payload is not valid UTF-8 becomes the
    empty string and disturbs nothing else: on every frame of well-formed
    fields, where a length-delimited field may carry any bytes under any
    number, [ParseFromString] returns [True] and gives each attribute what
    its fields decode to, in order; every field moves the position by
    exactly its encoded length. *)
Theorem ParseFromString_any_payload (fs : list field)
    (self : PublicAggreBookTickerV3Api) :
  forallb wellformed fs = true ->
  ParseFromString self (encode_frame fs) = Some (true, foldl assign_any self fs)
  /\ (forall num raw, known num = true -> Utf8.decode raw = None ->
        assign_any self (BytesField num raw)
        = assign self (StringField num []))
  /\ (forall pre f rest self',
        wellformed f = true ->
        snd (parse_field (pre ++ encode_field f ++ rest) self' (len pre))
        = len pre + len (encode_field f)).
Proof.
  intros Hv. split; [apply parse_any, Hv|split].
  - intros num raw _ Hdec. simpl. unfold decoded. rewrite Hdec. reflexivity.
  - intros pre f rest self' Hf. rewrite parse_field_any by exact Hf. reflexivity.
Qed.

Lemma ParseFromString_any_payload_witness :
  ParseFromString __init__
    (encode_frame [StringField 1 [49]; BytesField 2 [0xFF; 0xFE];
                   StringField 3 [50]])
  = Some (true, mkTicker [49] [] [50] []).
Proof.
  exact (proj1 (ParseFromString_any_payload
                  [StringField 1 [49]; BytesField 2 [0xFF; 0xFE];
                   StringField 3 [50]] __init__ eq_refl)).
Defined.

(** X4.  The wire type of a field of the schema is not looked at: whatever
    wire type the key of field 1, 2, 3 or 4 carries, the bytes after the key
    are read by [_read_string] as a length and a payload, and the attribute
    is set to the result. *)
Theorem known_field_wire_type_ignored (pre rest : list Z)
    (self : PublicAggreBookTickerV3Api) (num wire_type : Z) :
  known num = true -> 0 <= wire_type < 8 ->
  let data := pre ++ encode_varint (key num wire_type) ++ rest in
  let after_key := len pre + len (encode_varint (key num wire_type)) in
  parse_field data self (len pre)
  = (assign self (StringField num (fst (_read_string data after_key))),
     snd (_read_string data after_key)).
Proof.
  intros Hk Hw. cbv zeta. unfold parse_field.
  rewrite read_field_header_at by (apply known_cases in Hk; lia).
  destruct (_read_string _ _) as [s p].
  destruct (known_cases num Hk) as [->|[->|[->| ->]]]; reflexivity.
Qed.

Lemma known_field_wire_type_ignored_witness :
  parse_field ([] ++ encode_varint (key 1 0) ++ [3; 97; 98; 99]) __init__ (len [])
  = (mkTicker [97; 98; 99] [] [] [], 5).
Proof.
  refine (known_field_wire_type_ignored [] [3; 97; 98; 99] __init__ 1 0 _ _).
  - reflexivity.
  - lia.
Defined.

(** X5.  Frames compose: parsing the concatenation of two well-formed
    frames is parsing the first and then the second into the object the
    first left. *)
Theorem ParseFromString_concatenation (fs1 fs2 : list field)
    (self : PublicAggreBookTickerV3Api) :
  forallb wellformed fs1 = true -> forallb wellformed fs2 = true ->
  exists mid,
    ParseFromString self (encode_frame fs1) = Some (true, mid)
    /\ ParseFromString self (encode_frame fs1 ++ encode_frame fs2)
       = ParseFromString mid (encode_frame fs2).
Proof.
  intros H1 H2. exists (foldl assign_any self fs1).
  split; [apply parse_any, H1|].
  rewrite <- encode_frame_app.
  rewrite !parse_any by (rewrite ?forallb_app, ?H1, ?H2; reflexivity).
  rewrite foldl_app. reflexivity.
Qed.

Lemma ParseFromString_concatenation_witness :
  exists mid,
    ParseFromString __init__ (encode_frame [StringField 1 [49]]) = Some (true, mid)
    /\ ParseFromString __init__
         (encode_frame [StringField 1 [49]]
          ++ encode_frame [StringField 2 [50]; StringField 1 [51]])
       = ParseFromString mid (encode_frame [StringField 2 [50]; StringField 1 [51]]).
Proof.
  exact (ParseFromString_concatenation [StringField 1 [49]]
           [StringField 2 [50]; StringField 1 [51]] __init__ eq_refl eq_refl).
Defined.

Lemma slot_assign_other self f num :
  number f <> num -> known num = true -> slot num (assign_any self f) = slot num self.
Proof.
  intros Hne Hk.
  assert (forall s, slot num (assign self (StringField (number f) s)) = slot num self)
    as Hs.
  { intros s. unfold slot. simpl.
    destruct (known_cases num Hk) as [->|[->|[->| ->]]];
      destruct (Z.eqb_spec (number f) 1), (Z.eqb_spec (number f) 2),
        (Z.eqb_spec (number f) 3), (Z.eqb_spec (number f) 4);
      try lia; reflexivity. }
  destruct f; simpl in *; try reflexivity; apply Hs.
Qed.

Lemma slot_assign_same self f num s :
  number f = num -> known num = true -> text_of f = Some s ->
  slot num (assign_any self f) = s.
Proof.
  intros <- Hk Ht.
  assert (forall s, slot (number f) (assign self (StringField (number f) s)) = s)
    as Hs.
  { intros s'. unfold slot. simpl.
    destruct (known_cases _ Hk) as [->|[->|[->| ->]]]; reflexivity. }
  destruct f; simpl in *; try discriminate; injection Ht as <-; apply Hs.
Qed.

Lemma slot_foldl_other fs num :
  known num = true -> Forall (fun f => number f <> num) fs ->
  forall self, slot num (foldl assign_any self fs) = slot num self.
Proof.
  intros Hk Hall. induction Hall as [|f fs Hf _ IH]; intros self; simpl;
    [reflexivity|].
  rewrite IH. apply slot_assign_other; assumption.
Qed.

(** X6.  [ParseFromString] merges into the object, it does not reset it.
    After a well-formed frame, an attribute whose field number does not
    occur in the frame has the value it had before the call, and an
    attribute whose number occurs has the text of the last length-delimited
    field with that number. *)
Theorem ParseFromString_merges (fs : list field)
    (self : PublicAggreBookTickerV3Api) (num : Z) :
  forallb wellformed fs = true -> known num = true ->
  exists self',
    ParseFromString self (encode_frame fs) = Some (true, self')
    /\ (Forall (fun f => number f <> num) fs -> slot num self' = slot num self)
    /\ (forall fs1 f fs2 s,
          fs = fs1 ++ f :: fs2 -> number f = num -> text_of f = Some s ->
          Forall (fun f' => number f' <> num) fs2 ->
          slot num self' = s).
Proof.
  intros Hv Hk. exists (foldl assign_any self fs).
  split; [apply parse_any, Hv|split].
  - intros Hall. apply slot_foldl_other; assumption.
  - intros fs1 f fs2 s -> Hnum Ht Hall.
    rewrite foldl_app. simpl.
    rewrite slot_foldl_other by assumption.
    apply slot_assign_same; assumption.
Qed.

Lemma ParseFromString_merges_witness :
  exists self',
    ParseFromString (mkTicker [55] [56] [] [])
      (encode_frame [StringField 2 [49]; VarintField 9 5; StringField 2 [50]])
    = Some (true, self')
    /\ slot 1 self' = [55] /\ slot 2 self' = [50].
Proof.
  destruct (ParseFromString_merges
              [StringField 2 [49]; VarintField 9 5; StringField 2 [50]]
              (mkTicker [55] [56] [] []) 1 eq_refl eq_refl)
    as (self1 & E1 & Hkeep & _).
  destruct (ParseFromString_merges
              [StringField 2 [49]; VarintField 9 5; StringField 2 [50]]
              (mkTicker [55] [56] [] []) 2 eq_refl eq_refl)
    as (self2 & E2 & _ & Hlast).
  exists self1. split; [exact E1|]. split.
  - apply Hkeep. repeat constructor; simpl; lia.
  - rewrite E1 in E2. injection E2 as <-.
    apply (Hlast [StringField 2 [49]; VarintField 9 5] (StringField 2 [50]) []);
      [reflexivity|reflexivity|reflexivity|constructor].
Defined.
End DecoderMore.

(** ** The buffers: a whole save, the auto-save thread, shutdown *)
Module SaveFacts.
Import Store StoreFacts Lifecycle.

Section SaveFacts.
Context {row : Type} (to_csv_row : row -> csv_row).
Implicit Types (st : streamer row) (s symbol : string).



(** X8.  A save whose sink calls all succeed: every configured symbol's
    buffer is emptied and its file gets the buffered rows as one new batch
    (no batch at all when the buffer was empty), also for a symbol listed
    twice; whatever is kept for other symbols, the counters and the list
    of symbols are as before; [last_save_time] is the clock reading. *)
Theorem save_writes_each_buffer_once st (now : Z)
    (sink : string -> sink_result) :
  (forall s, s ∈ symbols st -> sink s = Succeeds /\ has_keys s st) ->
  let st' := save_data_to_csv to_csv_row now sink st in
  (forall s, s ∈ symbols st ->
     data_buffers st' !! s = Some []
     /\ csv_files st' !! s
        = with_batch to_csv_row (buffered s st) <$> csv_files st !! s
     /\ persisted s st' = persisted s st ++ map to_csv_row (buffered s st))
  /\ (forall s, s ∉ symbols st ->
        data_buffers st' !! s = data_buffers st !! s
        /\ csv_files st' !! s = csv_files st !! s)
  /\ total st' = total st /\ symbols st' = symbols st
  /\ save_interval st' = save_interval st /\ last_save_time st' = now.
Proof.
  intros Hk. cbv zeta. unfold save_data_to_csv.
  destruct (save_loop_exact to_csv_row (symbols st) sink st 0 Hk)
    as (st1 & n & E & Hst1).
  pose proof (save_loop_frame to_csv_row (symbols st) sink st 0) as Hfr.
  rewrite E in *. simpl in Hfr. destruct Hfr as (Hsym & _ & Hint & Htot).
  simpl. split; [|split; [|auto]].
  - intros s Hin. destruct (Hst1 s) as [[Hb Hf] _]; [exact Hin|].
    split; [exact Hb|]. split; [exact Hf|].
    apply (persisted_with_batch to_csv_row s st (set_last_save_time st1 now));
      [apply (Hk s Hin)|exact Hf].
  - intros s Hnin. destruct (Hst1 s) as [_ Hout]. apply Hout, Hnin.
Qed.

(** X9.  A save stops at the first symbol whose sink call raises on a
    non-empty buffer: the symbols listed before it are written and
    emptied; the failing symbol keeps its buffer, and its file gets the
    rows of the batch that had reached it before the exception; every
    other symbol - all those listed after it - keeps its buffer and its
    file as they were; [last_save_time] is not moved and the counters
    are as before. *)
Theorem save_stops_at_first_failure st (now : Z)
    (sink : string -> sink_result) (before after : list string)
    (s : string) (written : nat) :
  symbols st = before ++ s :: after ->
  (forall s', s' ∈ before -> sink s' = Succeeds /\ has_keys s' st) ->
  has_keys s st -> sink s = Raises written -> buffered s st <> [] ->
  let st' := save_data_to_csv to_csv_row now sink st in
  (forall s', s' ∈ before ->
     buffered s' st' = []
     /\ persisted s' st' = persisted s' st ++ map to_csv_row (buffered s' st))
  /\ (forall s', s' ∉ before ->
        data_buffers st' !! s' = data_buffers st !! s')
  /\ (forall s', s' ∉ before -> s' <> s ->
        csv_files st' !! s' = csv_files st !! s')
  /\ persisted s st'
     = persisted s st ++ take written (map to_csv_row (buffered s st))
  /\ last_save_time st' = last_save_time st /\ total st' = total st.
Proof.
  intros Hsym Hk Hks Hfail Hne.
  destruct (save_raising to_csv_row st now sink before after s written
              Hsym Hk Hks Hfail Hne)
    as (Hbefore & Hbufs & Hfiles & Hfile & Hlast & Htot & _).
  cbv zeta. split; [exact Hbefore|]. split; [exact Hbufs|].
  split; [exact Hfiles|]. split; [exact Hfile|]. split; assumption.
Qed.

Lemma run_keeps_clock st (steps : list (step row)) :
  Forall (fun x => match x with Saved _ => False | _ => True end) steps ->
  last_save_time (run to_csv_row st steps) = last_save_time st
  /\ save_interval (run to_csv_row st steps) = save_interval st.
Proof.
  intros Hall. revert st.
  induction Hall as [|x steps Hx Hall IH]; intros st; [auto|].
  rewrite run_cons. destruct (IH (run_step to_csv_row st x)) as [-> ->].
  destruct x as [s' rows|s' sink| |]; try contradiction; simpl.
  - destruct (append_rows_frame s' rows st) as (_ & -> & ->). auto.
  - destruct (flush_symbol_frame to_csv_row s' sink st) as (_ & -> & -> & _).
    auto.
  - auto.
Qed.

(** X10.  One wake-up of the auto-save thread leaves the state as it was,
    [last_save_time] included, when the interval has not elapsed or when
    every configured buffer is empty.  And after a save that completed at
    clock reading [now_saved], no wake-up before [now_saved +
    save_interval] saves again, whatever is appended or flushed in
    between. *)
Theorem auto_save_waits_for_interval st (now now_saved : Z)
    (sink : string -> sink_result) :
  (now - last_save_time st < save_interval st ->
   auto_save_tick to_csv_row now now_saved sink st = st)
  /\ ((forall s, s ∈ symbols st -> buffered s st = []) ->
      auto_save_tick to_csv_row now now_saved sink st = st)
  /\ ((forall s, s ∈ symbols st -> sink s = Succeeds /\ has_keys s st) ->
      forall (steps : list (step row)) now' now_saved' sink',
        Forall (fun x => match x with Saved _ => False | _ => True end)
               steps ->
        now' - now_saved < save_interval st ->
        let st' :=
          run to_csv_row (save_data_to_csv to_csv_row now_saved sink st)
              steps in
        auto_save_tick to_csv_row now' now_saved' sink' st' = st').
Proof.
  split; [|split].
  - intros Hlt. unfold auto_save_tick, should_save_data.
    destruct (Z.geb_spec (now - last_save_time st) (save_interval st));
      [lia|reflexivity].
  - intros Hall. unfold auto_save_tick.
    apply total_buffered_zero in Hall. rewrite Hall. simpl.
    destruct (should_save_data now st); reflexivity.
  - intros Hk steps now' now_saved' sink' Happ Hlt. cbv zeta.
    destruct (save_all_ok to_csv_row st now_saved sink Hk)
      as (_ & _ & _ & Hint & Hlast).
    destruct (run_keeps_clock
                (save_data_to_csv to_csv_row now_saved sink st) steps Happ)
      as [Hl Hi].
    unfold auto_save_tick, should_save_data. rewrite Hl, Hi, Hint, Hlast.
    destruct (Z.geb_spec (now' - now_saved) (save_interval st));
      [lia|reflexivity].
Qed.

(** A save all of whose sink calls raise: every buffer and counter is
    kept; when something is buffered, the loop is left by the exception
    and [last_save_time] stays; and when the calls raise before writing,
    nothing changes at all. *)
Lemma save_sink_raises st (now : Z) (sink : string -> sink_result) :
  (forall s, exists written, sink s = Raises written) ->
  let st' := save_data_to_csv to_csv_row now sink st in
  data_buffers st' = data_buffers st /\ total st' = total st
  /\ (total_buffered st > 0 -> last_save_time st' = last_save_time st)
  /\ ((forall s, sink s = Raises 0) -> total_buffered st > 0 -> st' = st).
Proof.
  intros Hraise. cbv zeta.
  assert (forall syms st0 acc,
            data_buffers (state_of (save_loop to_csv_row syms sink st0 acc))
            = data_buffers st0) as Hbufs.
  { induction syms as [|a syms IH]; intros st0 acc; simpl; [reflexivity|].
    destruct (Hraise a) as [written Ea]. rewrite Ea.
    pose proof (flush_symbol_raises to_csv_row a written st0) as Hb.
    destruct (flush_symbol to_csv_row a (Raises written) st0)
      as [st1|[st1 n]]; simpl in *; [exact Hb|].
    rewrite IH. exact Hb. }
  assert (total_buffered st > 0 ->
          exists st1, save_loop to_csv_row (symbols st) sink st 0 = inl st1)
    as Habort.
  { intros Hpos. destruct (total_buffered_some st Hpos) as (s & Hin & Hne).
    destruct (Hraise s) as [written Es].
    apply (save_loop_aborts to_csv_row s written (symbols st) sink Es
             st 0 Hin Hne). }
  pose proof (Hbufs (symbols st) st 0) as Hb.
  pose proof (save_loop_frame to_csv_row (symbols st) sink st 0)
    as (_ & Hlast & _ & Htot).
  unfold save_data_to_csv.
  split; [|split; [|split]].
  - destruct (save_loop to_csv_row (symbols st) sink st 0) as [st1|[st1 n]];
      exact Hb.
  - destruct (save_loop to_csv_row (symbols st) sink st 0) as [st1|[st1 n]];
      exact Htot.
  - intros Hpos. destruct (Habort Hpos) as (st1 & E). rewrite E in *.
    exact Hlast.
  - intros Hdown Hpos. destruct (Habort Hpos) as (st1 & E). rewrite E.
    assert (forall syms st0 acc,
              state_of (save_loop to_csv_row syms sink st0 acc) = st0)
      as Hsame.
    { induction syms as [|a syms IH]; intros st0 acc; simpl; [reflexivity|].
      rewrite (Hdown a).
      pose proof (flush_symbol_down to_csv_row a st0) as Hd.
      destruct (flush_symbol to_csv_row a (Raises 0) st0) as [st2|[st2 n]];
        simpl in *; [exact Hd|]. subst st2. apply IH. }
    specialize (Hsame (symbols st) st 0). rewrite E in Hsame. exact Hsame.
Qed.

(** X11.  [disconnect] with a working sink clears both flags, leaves every
    configured buffer empty and has each buffered row in its symbol's
    file, once, after the rows already there; the counters are kept.
    Disconnecting again, as the [finally] of [main] in
    [mexc_multi_streamer.py] does after [connect] has disconnected on
    [KeyboardInterrupt], changes nothing - whatever the sink does then.
    When the sink calls raise, [disconnect] does not retry: the buffers
    are kept as they were, in memory only, and when the calls raise
    before writing anything the whole state is as before. *)
Theorem disconnect_saves_once (c : client row) (now : Z)
    (sink : string -> sink_result) :
  (forall s, s ∈ symbols (streamer_of c) ->
             sink s = Succeeds /\ has_keys s (streamer_of c)) ->
  let c' := disconnect to_csv_row now sink c in
  is_running c' = false /\ is_connected c' = false
  /\ (forall s, s ∈ symbols (streamer_of c) ->
        buffered s (streamer_of c') = []
        /\ persisted s (streamer_of c')
           = persisted s (streamer_of c)
             ++ map to_csv_row (buffered s (streamer_of c)))
  /\ total (streamer_of c') = total (streamer_of c)
  /\ (forall now2 sink2, disconnect to_csv_row now2 sink2 c' = c')
  /\ (forall sink_raising,
        (forall s, exists written, sink_raising s = Raises written) ->
        let c_failed := disconnect to_csv_row now sink_raising c in
        data_buffers (streamer_of c_failed) = data_buffers (streamer_of c)
        /\ total (streamer_of c_failed) = total (streamer_of c)
        /\ last_save_time (streamer_of c_failed)
           = last_save_time (streamer_of c)
        /\ ((forall s, sink_raising s = Raises 0) ->
            streamer_of c_failed = streamer_of c)).
Proof.
  intros Hk. cbv zeta. destruct c as [r k st]. simpl in *.
  unfold disconnect. simpl.
  destruct (save_all_ok to_csv_row st now sink Hk)
    as (Hin & Htot & Hsym & _ & _).
  set (st1 := if total_buffered st >? 0
              then save_data_to_csv to_csv_row now sink st else st).
  assert (symbols st1 = symbols st) as Hsym1.
  { unfold st1. destruct (total_buffered st >? 0); [exact Hsym|reflexivity]. }
  assert (forall s, s ∈ symbols st ->
            buffered s st1 = []
            /\ persisted s st1
               = persisted s st ++ map to_csv_row (buffered s st)) as Hall.
  { intros s Hs. unfold st1.
    destruct (Z.gtb_spec (total_buffered st) 0) as [Hpos|Hzero].
    - apply (Hin s Hs).
    - assert (total_buffered st = 0) as Hz.
      { pose proof (sum_buffers_nonneg st (symbols st)).
        unfold total_buffered in *. lia. }
      rewrite (proj1 (total_buffered_zero st) Hz s Hs). simpl.
      rewrite app_nil_r. auto. }
  split; [reflexivity|]. split; [reflexivity|]. split; [exact Hall|].
  split; [|split].
  - unfold st1. destruct (total_buffered st >? 0); [exact Htot|reflexivity].
  - intros now2 sink2.
    assert (total_buffered st1 = 0) as ->.
    { apply total_buffered_zero. intros s Hs. rewrite Hsym1 in Hs.
      apply (Hall s Hs). }
    reflexivity.
  - intros sink_raising Hraise.
    destruct (save_sink_raises st now sink_raising Hraise)
      as (Hb & Ht & Hl & Hd).
    destruct (Z.gtb_spec (total_buffered st) 0) as [Hpos|Hzero].
    + split; [exact Hb|]. split; [exact Ht|].
      split; [apply Hl; lia|]. intros Hdown. apply Hd; [exact Hdown|lia].
    + auto.
Qed.
End SaveFacts.

Section StartupFacts.
Context {row : Type}.
Variable str_upper : string -> string.
Variable SYMBOLS : list string.

End StartupFacts.

(** *** On the sample inputs *)

Lemma save_writes_each_buffer_once_witness :
  persisted "BTCUSDT"
    (save_data_to_csv Multi.to_csv_row 60000 Demo.sink_up Demo.one_buffered)
  = persisted "BTCUSDT" Demo.one_buffered
    ++ map Multi.to_csv_row (buffered "BTCUSDT" Demo.one_buffered).
Proof.
  refine (proj2 (proj2 (proj1
            (save_writes_each_buffer_once Multi.to_csv_row Demo.one_buffered
               60000 Demo.sink_up _) "BTCUSDT" _))).
  - intros s' Hs'. vm_compute in Hs'.
    apply elem_of_cons in Hs' as [->|Hs'];
      [|apply list_elem_of_singleton in Hs' as ->];
      (split; [reflexivity|(split; [|split]); vm_compute; eauto]).
  - vm_compute. apply list_elem_of_here.
Defined.

Lemma save_stops_at_first_failure_witness :
  persisted "BTCUSDT"
    (save_data_to_csv Multi.to_csv_row 60000
       (fun s => if String.eqb s "ETHUSDT" then Succeeds else Raises 1)
       (append_rows "BTCUSDT" [Demo.row "BTCUSDT" 2; Demo.row "BTCUSDT" 3]
          (append_row "ETHUSDT" (Demo.row "ETHUSDT" 1)
             (Multi.__init__ ["ethusdt"; "btcusdt"; "solusdt"] 0 60000))))
  = persisted "BTCUSDT"
      (append_rows "BTCUSDT" [Demo.row "BTCUSDT" 2; Demo.row "BTCUSDT" 3]
         (append_row "ETHUSDT" (Demo.row "ETHUSDT" 1)
            (Multi.__init__ ["ethusdt"; "btcusdt"; "solusdt"] 0 60000)))
    ++ take 1
         (map Multi.to_csv_row
            (buffered "BTCUSDT"
               (append_rows "BTCUSDT"
                  [Demo.row "BTCUSDT" 2; Demo.row "BTCUSDT" 3]
                  (append_row "ETHUSDT" (Demo.row "ETHUSDT" 1)
                     (Multi.__init__ ["ethusdt"; "btcusdt"; "solusdt"]
                                     0 60000))))).
Proof.
  refine (proj1 (proj2 (proj2 (proj2
            (save_stops_at_first_failure Multi.to_csv_row
               (append_rows "BTCUSDT"
                  [Demo.row "BTCUSDT" 2; Demo.row "BTCUSDT" 3]
                  (append_row "ETHUSDT" (Demo.row "ETHUSDT" 1)
                     (Multi.__init__ ["ethusdt"; "btcusdt"; "solusdt"]
                                     0 60000)))
               60000
               (fun s => if String.eqb s "ETHUSDT" then Succeeds else Raises 1)
               ["ETHUSDT"] ["SOLUSDT"] "BTCUSDT" 1 _ _ _ _ _))))).
  - reflexivity.
  - intros s' Hs'. apply list_elem_of_singleton in Hs' as ->.
    split; [reflexivity|(split; [|split]); vm_compute; eauto].
  - (split; [|split]); vm_compute; eauto.
  - reflexivity.
  - vm_compute. discriminate.
Defined.

Lemma disconnect_saves_once_witness :
  buffered "BTCUSDT"
    (streamer_of
       (disconnect Multi.to_csv_row 60000 Demo.sink_up
                   (mkClient true true Demo.one_buffered)))
  = [].
Proof.
  refine (proj1 (proj1 (proj2 (proj2
            (disconnect_saves_once Multi.to_csv_row
               (mkClient true true Demo.one_buffered) 60000 Demo.sink_up
               _))) "BTCUSDT" _)).
  - intros s' Hs'. vm_compute in Hs'.
    apply elem_of_cons in Hs' as [->|Hs'];
      [|apply list_elem_of_singleton in Hs' as ->];
      (split; [reflexivity|(split; [|split]); vm_compute; eauto]).
  - vm_compute. apply list_elem_of_here.
Defined.
End SaveFacts.

(** ** Ingest: what a frame does to the state *)
Module IngestFacts.
Import Env Store StoreFacts Ingest.

Section Runs.
Context {row : Type} (to_csv_row : row -> csv_row).
Implicit Types (st : streamer row) (s : string).

Lemma append_rows_csv_files s (rows : list row) st :
  csv_files (append_rows s rows st) = csv_files st.
Proof.
  unfold append_rows. revert st.
  induction rows as [|r rows IH]; intros st; simpl; [reflexivity|].
  rewrite IH. apply append_row_frame.
Qed.

(** A run of appends: files and clock are not touched, and for a keyed
    symbol buffer and counter grow by the rows appended for it. *)
Lemma run_appends (steps : list (step row)) :
  Forall (fun x => match x with Append _ _ => True | _ => False end) steps ->
  forall st,
    csv_files (run to_csv_row st steps) = csv_files st
    /\ symbols (run to_csv_row st steps) = symbols st
    /\ last_save_time (run to_csv_row st steps) = last_save_time st
    /\ save_interval (run to_csv_row st steps) = save_interval st
    /\ forall s, has_keys s st ->
         buffered s (run to_csv_row st steps)
         = buffered s st ++ appended s steps
         /\ counter s (run to_csv_row st steps)
            = counter s st + Z.of_nat (length (appended s steps)).
Proof.
  induction 1 as [|x steps Hx Hall IH]; intros st.
  - simpl. split; [reflexivity|]. split; [reflexivity|].
    split; [reflexivity|]. split; [reflexivity|].
    intros s _. unfold appended. simpl.
    rewrite app_nil_r. split; [reflexivity|lia].
  - destruct x as [s' rows| | |]; try contradiction.
    rewrite run_cons. simpl run_step.
    destruct (IH (append_rows s' rows st)) as (-> & -> & -> & -> & Hs).
    rewrite append_rows_csv_files.
    destruct (append_rows_frame s' rows st) as (-> & -> & ->).
    split; [reflexivity|]. split; [reflexivity|].
    split; [reflexivity|]. split; [reflexivity|].
    intros s Hk.
    destruct (Hs s (append_rows_keys s' s rows st Hk)) as [-> ->].
    rewrite appended_cons. simpl.
    destruct (decide (s' = s)) as [->|Hne].
    + destruct (append_rows_same s rows st Hk) as (-> & _ & ->).
      rewrite app_assoc, length_app. split; [reflexivity|lia].
    + destruct (append_rows_other s' s rows st Hne) as (-> & _ & ->).
      simpl. split; [reflexivity|lia].
Qed.

End Runs.

Section Grouping.
Import Multi.
Implicit Types (d : list (string * list trade)) (t : trade) (k s : string).

Lemma dict_get_append d k t k' :
  dict_get (dict_append d k t) k'
  = if decide (k' = k) then Some (default [] (dict_get d k) ++ [t])
    else dict_get d k'.
Proof.
  induction d as [|[k0 v] d IH]; simpl.
  - repeat case_decide; subst; try congruence; reflexivity.
  - destruct (decide (k0 = k)) as [->|Hne]; simpl.
    + repeat case_decide; subst; try congruence; reflexivity.
    + rewrite IH. repeat case_decide; subst; try congruence; reflexivity.
Qed.

Lemma dict_append_keys d k t :
  map fst (dict_append d k t)
  = if decide (k ∈ map fst d) then map fst d else map fst d ++ [k].
Proof.
  induction d as [|[k0 v] d IH]; cbn [dict_append map fst].
  - destruct (decide (k ∈ [])) as [Hin|_]; [inversion Hin|reflexivity].
  - destruct (decide (k0 = k)) as [->|Hne]; cbn [map fst].
    + destruct (decide (k ∈ k :: map fst d)) as [_|Hn];
        [reflexivity|exfalso; apply Hn; left].
    + rewrite IH. destruct (decide (k ∈ map fst d)) as [Hin|Hnin];
        destruct (decide (k ∈ k0 :: map fst d)) as [Hin'|Hnin'];
        try reflexivity.
      * exfalso. apply Hnin'. right. exact Hin.
      * apply elem_of_cons in Hin' as [?|?]; congruence.
Qed.

Lemma dict_get_elem {V} (d : list (string * V)) k (v : V) :
  NoDup (map fst d) -> (k, v) ∈ d -> dict_get d k = Some v.
Proof.
  induction d as [|[k0 v0] d IH]; simpl; intros Hnd Hin.
  - inversion Hin.
  - apply NoDup_cons in Hnd as [Hnot Hnd].
    apply elem_of_cons in Hin as [[= -> ->]|Hin].
    + rewrite decide_True by reflexivity. reflexivity.
    + destruct (decide (k0 = k)) as [->|Hne]; [|apply IH; assumption].
      exfalso. apply Hnot. apply list_elem_of_fmap. exists (k, v). auto.
Qed.

Lemma group_by_symbol_snoc syms trades t :
  group_by_symbol syms (trades ++ [t])
  = if negb (bool_decide (t_symbol t = ""))
       && bool_decide (t_symbol t ∈ syms)
    then dict_append (group_by_symbol syms trades) (t_symbol t) t
    else group_by_symbol syms trades.
Proof. unfold group_by_symbol. rewrite foldl_app. reflexivity. Qed.

Lemma group_by_symbol_spec syms trades :
  NoDup (map fst (group_by_symbol syms trades))
  /\ forall s,
       dict_get (group_by_symbol syms trades) s
       = match filter (fun t => t_symbol t = s) trades with
         | [] => None
         | ts => if decide (s <> "" /\ s ∈ syms) then Some ts else None
         end.
Proof.
  induction trades as [|t trades [IHnd IH]] using rev_ind.
  - split; [constructor|reflexivity].
  - rewrite group_by_symbol_snoc.
    destruct (negb (bool_decide (t_symbol t = ""))
              && bool_decide (t_symbol t ∈ syms)) eqn:E.
    + apply andb_true_iff in E as [E1 E2].
      apply negb_true_iff, bool_decide_eq_false in E1.
      apply bool_decide_eq_true in E2. split.
      * rewrite dict_append_keys. case_decide; [exact IHnd|].
        apply NoDup_app. split; [exact IHnd|]. split.
        -- intros x Hx Hx'. apply list_elem_of_singleton in Hx' as ->.
           contradiction.
        -- apply NoDup_singleton.
      * intros s. rewrite dict_get_append, filter_app.
        rewrite (IH s), (IH (t_symbol t)).
        destruct (decide (s = t_symbol t)) as [->|Hne].
        -- rewrite filter_cons_True by reflexivity. rewrite filter_nil.
           destruct (decide (t_symbol t <> "" /\ t_symbol t ∈ syms))
             as [_|Hn]; [|exfalso; auto].
           destruct (filter _ trades); reflexivity.
        -- rewrite filter_cons_False by congruence. rewrite filter_nil.
           rewrite app_nil_r. reflexivity.
    + split; [exact IHnd|]. intros s. rewrite (IH s), filter_app.
      destruct (decide (t_symbol t = s)) as [<-|Hne].
      * destruct (decide (t_symbol t <> "" /\ t_symbol t ∈ syms))
          as [[Hn Hin]|_].
        { apply andb_false_iff in E as [E|E].
          - apply negb_false_iff, bool_decide_eq_true in E. contradiction.
          - apply bool_decide_eq_false in E. contradiction. }
        destruct (filter _ trades), (filter _ [t]); reflexivity.
      * rewrite filter_cons_False by congruence. rewrite filter_nil.
        rewrite app_nil_r. reflexivity.
Qed.

Lemma group_members syms trades s ts :
  (s, ts) ∈ group_by_symbol syms trades ->
  ts = filter (fun t => t_symbol t = s) trades
  /\ ts <> [] /\ s <> "" /\ s ∈ syms.
Proof.
  intros Hin. destruct (group_by_symbol_spec syms trades) as [Hnd Hget].
  pose proof (dict_get_elem _ _ _ Hnd Hin) as E. rewrite Hget in E.
  destruct (filter (fun t => t_symbol t = s) trades) as [|t0 ts0];
    [discriminate|].
  case_decide as Hr; [|discriminate]. injection E as <-.
  destruct Hr as [Hr1 Hr2].
  split; [reflexivity|]. split; [discriminate|]. split; assumption.
Qed.

(** X13.  [trades_by_symbol], as [_on_message] builds it: no key twice;
    the entry of a symbol is the list of the frame's trades that carry
    it, in the order of the frame, when the symbol is non-empty and
    configured and at least one trade carries it, and there is no entry
    otherwise. *)
Theorem group_by_symbol_partitions (syms : list string)
    (trades : list trade) (s : string) :
  NoDup (map fst (group_by_symbol syms trades))
  /\ dict_get (group_by_symbol syms trades) s
     = match filter (fun t => t_symbol t = s) trades with
       | [] => None
       | ts => if decide (s <> "" /\ s ∈ syms) then Some ts else None
       end
  /\ (forall ts,
        (s, ts) ∈ group_by_symbol syms trades ->
        ts = filter (fun t => t_symbol t = s) trades
        /\ ts <> [] /\ s <> "" /\ s ∈ syms).
Proof.
  destruct (group_by_symbol_spec syms trades) as [Hnd Hget].
  split; [exact Hnd|]. split; [apply Hget|]. apply group_members.
Qed.
End Grouping.

Section Frames.
Context `{Externals}.

Lemma ticker_on_message_steps now_str message
    (st : Ticker.MEXCBookTickerStreamer) :
  Ticker._on_message now_str message st
  = run Ticker.to_csv_row st (ticker_message_steps now_str message st).
Proof.
  unfold Ticker._on_message, ticker_message_steps.
  destruct (Ticker._parse_protobuf_message message) as [t|]; [|reflexivity].
  cbv zeta.
  destruct (negb (bool_decide (Ticker.t_symbol t = ""))
            && bool_decide (Ticker.t_symbol t ∈ symbols st));
    [|reflexivity].
  unfold Ticker._process_ticker_data.
  destruct (Ticker.make_row now_str t (Ticker.t_symbol t)); reflexivity.
Qed.

Lemma message_steps_append clock message (st : Multi.MEXCMultiStreamer) :
  Forall (fun x => match x with Append _ _ => True | _ => False end)
         (Multi.message_steps clock message st).
Proof.
  unfold Multi.message_steps.
  generalize (Multi.group_by_symbol (symbols st)
                (Multi._parse_protobuf_message clock message)) as groups.
  induction groups as [|[s ts] groups IH]; simpl; constructor;
    [exact I|exact IH].
Qed.

Lemma ticker_message_steps_append now_str message
    (st : Ticker.MEXCBookTickerStreamer) :
  Forall (fun x => match x with Append _ _ => True | _ => False end)
         (ticker_message_steps now_str message st)
  /\ forall s, (length (appended s (ticker_message_steps now_str message st))
                <= 1)%nat.
Proof.
  unfold ticker_message_steps.
  destruct (Ticker._parse_protobuf_message message) as [t|];
    [|split; [constructor|intros s; simpl; lia]].
  cbv zeta.
  destruct (negb (bool_decide (Ticker.t_symbol t = ""))
            && bool_decide (Ticker.t_symbol t ∈ symbols st));
    [|split; [constructor|intros s; simpl; lia]].
  split; [repeat constructor|]. intros s. unfold appended. simpl.
  rewrite app_nil_r. case_decide; [|simpl; lia].
  destruct (Ticker.make_row now_str t (Ticker.t_symbol t)); simpl; lia.
Qed.

(** X12.  A binary frame only appends: in both streamers [_on_message]
    leaves the files, the list of symbols, [last_save_time] and the save
    interval as they were, and for every symbol it extends the buffer at
    its end and adds to the counter exactly the number of rows it
    appended there - at most one row in the book-ticker streamer. *)
Theorem on_message_only_appends (message : list Z) :
  (forall clock (st : Multi.MEXCMultiStreamer),
     let st' := Multi._on_message clock message st in
     csv_files st' = csv_files st /\ symbols st' = symbols st
     /\ last_save_time st' = last_save_time st
     /\ save_interval st' = save_interval st
     /\ forall s, has_keys s st ->
          exists rows,
            buffered s st' = buffered s st ++ rows
            /\ counter s st' = counter s st + Z.of_nat (length rows))
  /\ (forall now_str (st : Ticker.MEXCBookTickerStreamer),
        let st' := Ticker._on_message now_str message st in
        csv_files st' = csv_files st /\ symbols st' = symbols st
        /\ last_save_time st' = last_save_time st
        /\ save_interval st' = save_interval st
        /\ forall s, has_keys s st ->
             exists rows,
               buffered s st' = buffered s st ++ rows
               /\ counter s st' = counter s st + Z.of_nat (length rows)
               /\ (length rows <= 1)%nat).
Proof.
  split.
  - intros clock st. cbv zeta. rewrite MultiFacts.on_message_steps.
    destruct (run_appends Multi.to_csv_row _
                (message_steps_append clock message st) st)
      as (-> & -> & -> & -> & Hs).
    split; [reflexivity|]. split; [reflexivity|].
    split; [reflexivity|]. split; [reflexivity|].
    intros s Hk. destruct (Hs s Hk) as [Hb Hc]. eauto.
  - intros now_str st. cbv zeta. rewrite ticker_on_message_steps.
    destruct (ticker_message_steps_append now_str message st) as [Ha Hone].
    destruct (run_appends Ticker.to_csv_row _ Ha st)
      as (-> & -> & -> & -> & Hs).
    split; [reflexivity|]. split; [reflexivity|].
    split; [reflexivity|]. split; [reflexivity|].
    intros s Hk. destruct (Hs s Hk) as [Hb Hc]. eauto.
Qed.

(** X14.  The book-ticker streamer keeps its rows as the trade streamer
    does.  From the state [__init__] leaves, after any interleaving of
    appends and flushes and whatever the sink calls do, the batches
    drained from a symbol's buffer followed by the rows of its buffer
    are the rows appended for it, each once and in order, and its
    counter is the number of both.  Every drained row is in the symbol's
    file, in that order; and the file holds nothing else, unless a sink
    call raised after part of its batch had reached the file.
    [_on_message] and [save_data_to_csv] are such sequences of steps,
    the second one appending nothing. *)
Theorem ticker_buffer_conservation (syms : list string) (now interval : Z)
    (steps : list (step Ticker.data_row)) (s : string) :
  s ∈ map upper syms ->
  let st0 := Ticker.__init__ syms now interval in
  let st := run Ticker.to_csv_row st0 steps in
  drained Ticker.to_csv_row s st0 steps ++ buffered s st = appended s steps
  /\ sublist (map Ticker.to_csv_row (drained Ticker.to_csv_row s st0 steps))
             (persisted s st)
  /\ (Forall writes_nothing_on_failure steps ->
      persisted s st ++ map Ticker.to_csv_row (buffered s st)
      = map Ticker.to_csv_row (appended s steps))
  /\ counter s st
     = Z.of_nat (length (drained Ticker.to_csv_row s st0 steps))
       + Z.of_nat (length (buffered s st))
  /\ (forall now_str message st1,
        Ticker._on_message now_str message st1
        = run Ticker.to_csv_row st1 (ticker_message_steps now_str message st1))
  /\ (forall now' sink st1,
        exists steps',
          Ticker.save_data_to_csv now' sink st1
          = run Ticker.to_csv_row st1 steps'
          /\ forall s', appended s' steps' = []).
Proof.
  intros Hin. cbv zeta. unfold Ticker.__init__.
  destruct (init_state (row := Ticker.data_row) (map upper syms) now interval
              s Hin) as (Hk & Hb & Hp & Hc).
  destruct (run_effect Ticker.to_csv_row s steps _ Hk)
    as (_ & E & Ec & w & Ew & Hsub & Hclean).
  rewrite Hb in E. rewrite Hp in Ew. rewrite Hc in Ec. simpl in E, Ew.
  split; [exact E|]. split; [rewrite Ew; exact Hsub|].
  split; [|split; [|split]].
  - intros Hall. rewrite Ew, (Hclean Hall), <- map_app, E. reflexivity.
  - rewrite Ec, <- E, length_app. lia.
  - apply ticker_on_message_steps.
  - intros now' sink st1. apply save_data_to_csv_steps.
Qed.

Lemma float_or_zero_empty x :
  x = "" -> Ticker.float_or_zero x = Some 0%float.
Proof. intros ->. reflexivity. Qed.

Lemma float_or_zero_None x :
  float_of_str x = None ->
  Ticker.float_or_zero x = None \/ Ticker.float_or_zero x = Some 0%float.
Proof.
  intros E. unfold Ticker.float_or_zero.
  destruct (decide (x = "")); [right; reflexivity|left; exact E].
Qed.

Lemma ticker_of_zero wrapper bp bq ap aq :
  bp = 0%float \/ bq = 0%float \/ ap = 0%float \/ aq = 0%float ->
  Ticker.ticker_of wrapper bp bq ap aq = None.
Proof.
  unfold Ticker.ticker_of, Ticker.validate.
  intros [E|[E|[E|E]]]; subst;
    replace (PrimFloat.ltb 0 0) with false by reflexivity;
    rewrite ?andb_false_r; reflexivity.
Qed.

(** X15.  What the book-ticker parser gives for a frame.  It gives
    nothing when the wrapper does not decode, when the wrapper carries
    no book ticker, when one of the four fields is the empty string
    (read as 0.0, which validation refuses), and when [float] raises on
    one of them.  A record it does give carries the wrapper's symbol -
    possibly the empty one -, channel and send time and the four fields
    as [float] reads them. *)
Theorem ticker_frame_rejected (message : list Z) :
  (wrapper_of_bytes message = None ->
   Ticker._parse_protobuf_message message = None)
  /\ (forall w,
        wrapper_of_bytes message = Some w ->
        (publicAggreBookTicker w = None ->
         Ticker._parse_protobuf_message message = None)
        /\ (forall b,
              publicAggreBookTicker w = Some b ->
              (bidPrice b = "" \/ bidQuantity b = "" \/ askPrice b = ""
               \/ askQuantity b = "" ->
               Ticker._parse_protobuf_message message = None)
              /\ (float_of_str (bidPrice b) = None
                  \/ float_of_str (bidQuantity b) = None
                  \/ float_of_str (askPrice b) = None
                  \/ float_of_str (askQuantity b) = None ->
                  Ticker._parse_protobuf_message message = None)
              /\ (forall t,
                    Ticker._parse_protobuf_message message = Some t ->
                    Ticker.t_symbol t = symbol w
                    /\ Ticker.t_channel t = channel w
                    /\ Ticker.t_timestamp t = sendTime w
                    /\ float_of_str (bidPrice b) = Some (Ticker.t_bid_price t)
                    /\ float_of_str (bidQuantity b)
                       = Some (Ticker.t_bid_quantity t)
                    /\ float_of_str (askPrice b) = Some (Ticker.t_ask_price t)
                    /\ float_of_str (askQuantity b)
                       = Some (Ticker.t_ask_quantity t)))).
Proof.
  unfold Ticker._parse_protobuf_message. split.
  - intros ->. reflexivity.
  - intros w ->. split; [intros ->; reflexivity|]. intros b ->.
    assert (forall x y z u : option float,
              x = Some 0%float \/ y = Some 0%float \/ z = Some 0%float
              \/ u = Some 0%float \/ x = None \/ y = None \/ z = None
              \/ u = None ->
              match x, y, z, u with
              | Some bp, Some bq, Some ap, Some aq =>
                Ticker.ticker_of w bp bq ap aq
              | _, _, _, _ => None
              end = None) as Hzero.
    { intros x y z u Hor.
      destruct x as [bp|], y as [bq|], z as [ap|], u as [aq|];
        try reflexivity.
      apply ticker_of_zero.
      destruct Hor as [E|[E|[E|[E|[E|[E|[E|E]]]]]]];
        try discriminate; injection E as ->; auto. }
    split; [|split].
    + intros Hempty. apply Hzero.
      destruct Hempty as [E|[E|[E|E]]];
        apply float_or_zero_empty in E; auto 10.
    + intros Hfail. apply Hzero.
      destruct Hfail as [E|[E|[E|E]]];
        apply float_or_zero_None in E as [E|E]; auto 10.
    + intros t.
      destruct (decide (bidPrice b = "")) as [E1|N1];
        [rewrite Hzero by (apply float_or_zero_empty in E1; auto 10);
         discriminate|].
      destruct (decide (bidQuantity b = "")) as [E2|N2];
        [rewrite Hzero by (apply float_or_zero_empty in E2; auto 10);
         discriminate|].
      destruct (decide (askPrice b = "")) as [E3|N3];
        [rewrite Hzero by (apply float_or_zero_empty in E3; auto 10);
         discriminate|].
      destruct (decide (askQuantity b = "")) as [E4|N4];
        [rewrite Hzero by (apply float_or_zero_empty in E4; auto 10);
         discriminate|].
      unfold Ticker.float_or_zero.
      rewrite !decide_False by assumption.
      destruct (float_of_str (bidPrice b)) as [bp|]; [|discriminate].
      destruct (float_of_str (bidQuantity b)) as [bq|]; [|discriminate].
      destruct (float_of_str (askPrice b)) as [ap|]; [|discriminate].
      destruct (float_of_str (askQuantity b)) as [aq|]; [|discriminate].
      unfold Ticker.ticker_of.
      destruct (Ticker.validate bp bq ap aq); [|discriminate].
      intros [= <-]. simpl. auto 10.
Qed.


End Frames.



Section Files.
Context `{Externals}.


End Files.

(** *** On the sample inputs *)

Lemma ticker_buffer_conservation_witness :
  drained Ticker.to_csv_row "ETHUSDT"
    (Ticker.__init__ ["btcusdt"; "ethusdt"] 0 60000)
    (@ticker_message_steps Demo.externals "2023-11-14 22:13:21.000" [3]
       (Ticker.__init__ ["btcusdt"; "ethusdt"] 0 60000)
     ++ [Flush "ETHUSDT" (Raises 1); Flush "ETHUSDT" Succeeds])
  ++ buffered "ETHUSDT"
       (run Ticker.to_csv_row
          (Ticker.__init__ ["btcusdt"; "ethusdt"] 0 60000)
          (@ticker_message_steps Demo.externals "2023-11-14 22:13:21.000"
             [3] (Ticker.__init__ ["btcusdt"; "ethusdt"] 0 60000)
           ++ [Flush "ETHUSDT" (Raises 1); Flush "ETHUSDT" Succeeds]))
  = appended "ETHUSDT"
      (@ticker_message_steps Demo.externals "2023-11-14 22:13:21.000" [3]
         (Ticker.__init__ ["btcusdt"; "ethusdt"] 0 60000)
       ++ [Flush "ETHUSDT" (Raises 1); Flush "ETHUSDT" Succeeds]).
Proof.
  refine (proj1 (@ticker_buffer_conservation Demo.externals
                   ["btcusdt"; "ethusdt"] 0 60000 _ "ETHUSDT" _)).
  vm_compute. apply list_elem_of_further, list_elem_of_here.
Defined.


End IngestFacts.

(** ** Text frames *)
Module ControlFacts.
Import Store Control.

Section ControlFacts.
Context {row : Type}.
Variable json_loads : list Z -> loads_result.
Variables on_bytes on_text : list Z -> streamer row -> streamer row.

(** X18.  Text frames.  A text of at most 100 characters never changes
    the state, whatever it holds.  Nor does a JSON object that has both
    a [code] and a [msg] key or whose [msg] is "PONG", however long; nor
    any JSON value that is not an object (the exception it raises is
    swallowed).  A longer text that is not JSON, or is an object that is
    neither of the two, goes to the protobuf parser like a binary
    frame. *)
Theorem text_frames_control (message : list Z) (st : streamer row) :
  let st' := _on_message json_loads on_bytes on_text (Text message) st in
  (Pb2.len message <= 100 -> st' = st)
  /\ (forall items,
        json_loads message = Loaded (JObject items) ->
        is_Some (lookup_key items "code") /\ is_Some (lookup_key items "msg")
        \/ lookup_key items "msg" = Some (JString "PONG") ->
        st' = st)
  /\ (forall data,
        json_loads message = Loaded data ->
        (forall items, data <> JObject items) -> st' = st)
  /\ (100 < Pb2.len message ->
      json_loads message = JSONDecodeError
      \/ (exists items,
            json_loads message = Loaded (JObject items)
            /\ (lookup_key items "code" = None
                \/ lookup_key items "msg" = None)
            /\ lookup_key items "msg" <> Some (JString "PONG")) ->
      st' = on_text message st).
Proof.
  cbv zeta. unfold _on_message. split; [|split; [|split]].
  - intros Hlen. destruct (json_branch (json_loads message)); [reflexivity|].
    destruct (Z.gtb_spec (Pb2.len message) 100); [lia|reflexivity].
  - intros items -> Hctl. unfold json_branch, contains, get.
    destruct Hctl as [[Hc Hm]|Hp].
    + rewrite !bool_decide_eq_true_2 by assumption. reflexivity.
    + rewrite Hp. rewrite (bool_decide_eq_true_2 (is_Some (Some _)))
        by eauto.
      destruct (bool_decide (is_Some (lookup_key items "code")));
        reflexivity.
  - intros data -> Hno. unfold json_branch.
    destruct data as [|b|n|f|s|items|items]; simpl; try reflexivity.
    + destruct (substring_of "code" s); [|reflexivity].
      destruct (substring_of "msg" s); reflexivity.
    + destruct (existsb _ items); [|reflexivity].
      destruct (existsb _ items); reflexivity.
    + exfalso. apply (Hno items). reflexivity.
  - intros Hlen Hcase.
    assert (json_branch (json_loads message) = Continue) as ->.
    { destruct Hcase as [->|(items & -> & Hmiss & Hpong)]; [reflexivity|].
      unfold json_branch, contains, get.
      assert ((if bool_decide (is_Some (lookup_key items "code"))
               then Some (bool_decide (is_Some (lookup_key items "msg")))
               else Some false) = Some false) as ->.
      { destruct Hmiss as [E|E]; rewrite E.
        - rewrite bool_decide_eq_false_2; [reflexivity|].
          intros [? ?]; discriminate.
        - rewrite (bool_decide_eq_false_2 (is_Some None));
            [|intros [? ?]; discriminate].
          destruct (bool_decide _); reflexivity. }
      destruct (lookup_key items "msg") as [[| | | |s| |]|]; try reflexivity.
      destruct (decide (s = "PONG")) as [->|Hne]; [congruence|].
      clear -Hne.
      repeat (destruct s as [|[[] [] [] [] [] [] [] []] s];
              try reflexivity; try congruence). }
    destruct (Z.gtb_spec (Pb2.len message) 100); [reflexivity|lia].
Qed.
End ControlFacts.
End ControlFacts.
